(** * Deprecated-API extractor and matcher of the ComfyUI custom-node linter

    A shallow embedding of
    - [scripts/extract-deprecated-apis.js] (class [DeprecatedApiExtractor]):
      the annotation scanner, the identifier extractor and the registry
      builder, and
    - [src/rules/no-deprecated-comfyui-apis.ts]: the name-lookup index and
      the matcher/reporter,
    followed by the properties of the specification that concern them.

    Text is modelled by [string]: a sequence of 8-bit characters read as
    ASCII.  The character classes [\s], [\w], [.] and the case folding are
    those of JavaScript on ASCII text; a character above 127 is neither a
    space nor a word character and has no case. *)

From stdpp Require Import gmap strings list pretty sorting.
From Stdlib Require Import Ascii String.

Local Open Scope nat_scope.
Local Open Scope stdpp_scope.

(** ** Characters and strings, as the JavaScript runtime treats them *)

Module Js.

(** White space of [\s] and of [String.prototype.trim]: TAB, LF, VT, FF, CR
    and the space. *)
Definition is_space (a : ascii) : bool := Ascii.is_space a.

(** Line terminators, which [.] does not match. *)
Definition is_line_terminator (a : ascii) : bool :=
  let n := nat_of_ascii a in (n =? 10) || (n =? 13).

(** [\w] is [[A-Za-z0-9_]]. *)
Definition is_word (a : ascii) : bool :=
  let n := nat_of_ascii a in
  ((48 <=? n) && (n <=? 57)) || ((65 <=? n) && (n <=? 90))
  || ((97 <=? n) && (n <=? 122)) || (n =? 95).

Definition is_upper (a : ascii) : bool :=
  let n := nat_of_ascii a in (65 <=? n) && (n <=? 90).

Definition lower (a : ascii) : ascii :=
  if is_upper a then ascii_of_nat (nat_of_ascii a + 32) else a.

(** [String.prototype.toLowerCase] *)
Fixpoint toLowerCase (s : string) : string :=
  match s with
  | EmptyString => EmptyString
  | String a s' => String (lower a) (toLowerCase s')
  end.

Fixpoint trimStart (s : string) : string :=
  match s with
  | EmptyString => EmptyString
  | String a s' => if is_space a then trimStart s' else s
  end.

(** [String.prototype.trim] *)
Definition trim (s : string) : string :=
  String.rev (trimStart (String.rev (trimStart s))).

(** [String.prototype.startsWith] *)
Definition startsWith (s p : string) : bool := String.prefix p s.

Definition is_newline (a : ascii) : bool := nat_of_ascii a =? 10.

(** [s.split('\n')]: never the empty list; [''.split('\n')] is [['']]. *)
Fixpoint split_lines (s : string) : list string :=
  match s with
  | EmptyString => [EmptyString]
  | String a s' =>
      if is_newline a then EmptyString :: split_lines s'
      else match split_lines s' with
           | l :: ls => String a l :: ls
           | [] => [String a EmptyString]
           end
  end.

(** [Array.prototype.join] *)
Definition join (sep : string) (l : list string) : string := String.concat sep l.

(** Whether every character of a string satisfies [p]. *)
Fixpoint all_chars (p : ascii → bool) (s : string) : bool :=
  match s with
  | EmptyString => true
  | String a s' => p a && all_chars p s'
  end.

(** A string is falsy exactly when it is empty. *)
Definition truthy (s : string) : bool :=
  match s with EmptyString => false | _ => true end.

End Js.

(** ** A backtracking regular-expression matcher

    The regular expressions of the two source files use literals, character
    classes, sequencing, alternation, greedy and lazy repetition, capture
    groups and the anchors [^] and [$] (no [m] flag anywhere).  [run] lists
    the ways a pattern can match at a cursor, in the order in which a
    backtracking matcher tries them, so the head of the list is the match
    JavaScript reports. *)

Module Re.

Inductive regex : Type :=
| Eps
| Class (p : ascii → bool)
| Seq (r1 r2 : regex)
| Alt (r1 r2 : regex)
| Star (greedy : bool) (r : regex)
| Group (i : nat) (r : regex)
| Bol
| Eol.

Record cursor : Type := Cursor { pos : nat; rest : string }.

(** Capture groups recorded along one way of matching, earliest first. *)
Abbreviation captures := (list (nat * string)).

Definition consumed (c c' : cursor) : string :=
  String.substring 0 (pos c' - pos c) (rest c).

(** An iteration of a repetition must consume input. *)
Definition progress (c : cursor) (x : cursor * captures) : bool :=
  String.length (rest x.1) <? String.length (rest c).

Fixpoint iter_star (greedy : bool) (body : cursor → list (cursor * captures))
    (fuel : nat) (c : cursor) : list (cursor * captures) :=
  match fuel with
  | 0 => [(c, [])]
  | S k =>
      let more :=
        x ← filter (λ x, progress c x = true) (body c);
        y ← iter_star greedy body k x.1;
        [(y.1, x.2 ++ y.2)] in
      if greedy then more ++ [(c, [])] else (c, []) :: more
  end.

Fixpoint run (r : regex) (c : cursor) : list (cursor * captures) :=
  match r with
  | Eps => [(c, [])]
  | Class p =>
      match rest c with
      | String a s => if p a then [(Cursor (S (pos c)) s, [])] else []
      | EmptyString => []
      end
  | Seq r1 r2 =>
      x ← run r1 c; y ← run r2 x.1; [(y.1, x.2 ++ y.2)]
  | Alt r1 r2 => run r1 c ++ run r2 c
  | Star greedy r' => iter_star greedy (run r') (String.length (rest c)) c
  | Group i r' =>
      x ← run r' c; [(x.1, x.2 ++ [(i, consumed c x.1)])]
  | Bol => if pos c =? 0 then [(c, [])] else []
  | Eol => match rest c with EmptyString => [(c, [])] | _ => [] end
  end.

(** The result of [RegExp.prototype.exec] / [String.prototype.match]: the
    index of the match, the matched text and the groups that took part. *)
Record match_result : Type :=
  Match { index : nat; matched : string; groups : captures }.

(** Leftmost match: the start positions are tried from left to right. *)
Fixpoint search (r : regex) (p : nat) (s : string) : option match_result :=
  match run r (Cursor p s) with
  | x :: _ => Some (Match p (consumed (Cursor p s) x.1) x.2)
  | [] =>
      match s with
      | EmptyString => None
      | String _ s' => search r (S p) s'
      end
  end.

(** [exec] with [lastIndex = 0], and [match] without the [g] flag. *)
Definition exec (r : regex) (s : string) : option match_result := search r 0 s.

(** [RegExp.prototype.test] *)
Definition test (r : regex) (s : string) : bool :=
  match exec r s with Some _ => true | None => false end.

(** Group [i] of a match: [None] is JavaScript's [undefined]. *)
Fixpoint group_of (g : captures) (i : nat) : option string :=
  match g with
  | [] => None
  | (j, s) :: g' =>
      match group_of g' i with
      | Some s' => Some s'
      | None => if j =? i then Some s else None
      end
  end.

(** The pattern [r] can match from cursor [c] up to cursor [c']. *)
Definition reaches (r : regex) (c c' : cursor) : Prop :=
  ∃ g, (c', g) ∈ run r c.

(** *** Pattern combinators *)

Definition chr (a : ascii) : regex := Class (λ b, bool_decide (b = a)).
Definition chr_i (a : ascii) : regex :=
  Class (λ b, bool_decide (Js.lower b = Js.lower a)).

Fixpoint lit (s : string) : regex :=
  match s with
  | EmptyString => Eps
  | String a s' => Seq (chr a) (lit s')
  end.

(** A literal under the [i] flag. *)
Fixpoint lit_i (s : string) : regex :=
  match s with
  | EmptyString => Eps
  | String a s' => Seq (chr_i a) (lit_i s')
  end.

Declare Scope regex_scope.
Delimit Scope regex_scope with re.
Bind Scope regex_scope with regex.
Infix ">>" := Seq (at level 60, right associativity) : regex_scope.
Infix "<|>" := Alt (at level 65, right associativity) : regex_scope.

Definition plus (r : regex) : regex := Seq r (Star true r).
Definition plus_lazy (r : regex) : regex := Seq r (Star false r).
Definition opt (r : regex) : regex := Alt r Eps.

Definition ws : regex := Class Js.is_space.                    (* \s *)
Definition word : regex := Class Js.is_word.                   (* \w *)
Definition dot : regex := Class (λ a, negb (Js.is_line_terminator a)). (* . *)
Definition any : regex := Class (λ _, true).                   (* [\s\S] *)
Definition none_of (l : list ascii) : regex :=                 (* [^...] *)
  Class (λ a, bool_decide (a ∉ l)).

End Re.

(** ** JavaScript objects as ordered maps

    A plain object keeps its string keys in insertion order, which
    [Object.entries] and [Object.values] expose; an association list models
    it. *)

Module Obj.

Definition object (V : Type) : Type := list (string * V).

(** [o[k]] *)
Fixpoint get {V} (o : object V) (k : string) : option V :=
  match o with
  | [] => None
  | (k', v) :: o' => if decide (k' = k) then Some v else get o' k
  end.

(** [o[k] = v]: an existing key keeps its place, a new key goes last. *)
Fixpoint set {V} (o : object V) (k : string) (v : V) : object V :=
  match o with
  | [] => [(k, v)]
  | (k', v') :: o' =>
      if decide (k' = k) then (k, v) :: o' else (k', v') :: set o' k v
  end.

Definition entries {V} (o : object V) : list (string * V) := o.
Definition values {V} (o : object V) : list V := o.*2.

End Obj.

(** ** The registry record shared by the extractor and the matcher *)

Module Api.

(** [interface DeprecatedApi], and the objects the extractor pushes. *)
Record DeprecatedApi : Type := {
  name : string;
  reason : string;
  file : string;
  line : nat;
  context : string
}.

(** [deprecatedApis]: category name to records. *)
Abbreviation registry := (Obj.object (list DeprecatedApi)).

End Api.

(** ** Exceptions *)

Inductive result (A : Type) : Type :=
| Ok (a : A)
| Throw (message : string).
Arguments Ok {A} a.
Arguments Throw {A} message.

Definition result_bind {A B} (x : result A) (f : A → result B) : result B :=
  match x with
  | Ok a => f a
  | Throw e => Throw e
  end.

Notation "'try!' x <- e1 ; e2" := (result_bind e1 (λ x, e2))
  (at level 10, x name, e1 at level 100, e2 at level 200).

(** A [for] loop whose body may throw. *)
Fixpoint for_each {A S} (body : A → S → result S) (l : list A) (s : S) : result S :=
  match l with
  | [] => Ok s
  | a :: l' => try! s' <- body a s; for_each body l' s'
  end.

(** ** The extractor: [scripts/extract-deprecated-apis.js] *)

Module Extractor.
Import Re.
Local Open Scope regex_scope.

Definition FRONTEND_SOURCE_PATHS : list string := [
  "/home/c_byrne/projects/comfyui-frontend-testing/ComfyUI_frontend-clone-20/src";
  "/home/c_byrne/projects/comfyui-frontend-testing/ComfyUI_frontend/src"
].

Definition FILE_PATTERNS : list string := ["**/*.ts"; "**/*.vue"; "**/*.js"].

(** [/@deprecated\s+(.+?)(?:\n|$|\*\/)/gi] *)
Definition leading_marker : regex :=
  lit_i "@deprecated" >> plus ws >> Group 1 (plus_lazy dot)
  >> (chr "010" <|> Eol <|> lit "*/").

(** [/\/\*\*[\s\S]*?@deprecated[\s\S]*?\*\//gi] *)
Definition block_comment : regex :=
  lit "/**" >> Star false any >> lit_i "@deprecated" >> Star false any
  >> lit "*/".

(** [/\/\/\s*@deprecated\s+(.+)/gi] *)
Definition line_comment : regex :=
  lit "//" >> Star true ws >> lit_i "@deprecated" >> plus ws
  >> Group 1 (plus dot).

Definition DEPRECATED_PATTERNS : list regex :=
  [leading_marker; block_comment; line_comment].

(** The strings [guessItemType] returns. *)
Inductive kind : Type :=
| function | class | constant | type | property | import | unknown.

Global Instance kind_eq_dec : EqDecision kind.
Proof. solve_decision. Defined.

Definition kind_name (k : kind) : string :=
  match k with
  | function => "function"
  | class => "class"
  | constant => "constant"
  | type => "type"
  | property => "property"
  | import => "import"
  | unknown => "unknown"
  end.

(** The objects [findDeprecatedItems] pushes onto [items]. *)
Record Item : Type := {
  file : string;
  line : nat;
  reason : string;
  context : string;
  item_type : kind;      (* the field [type] *)
  fullMatch : string
}.

(** [getContextualInfo(lines, deprecatedLineIndex)] *)
Definition getContextualInfo (lines : list string) (deprecatedLineIndex : nat) : string :=
  let start := Nat.max 0 (deprecatedLineIndex - 2) in
  let end_ := Nat.min (List.length lines) (deprecatedLineIndex + 3) in
  let contextLines :=
    i ← seq start (end_ - start);
    if decide (i ≠ deprecatedLineIndex) then
      let line := Js.trim (default EmptyString (lines !! i)) in
      if Js.truthy line && negb (Js.startsWith line "//")
         && negb (Js.startsWith line "*")
      then [line] else []
    else [] in
  Js.join " " contextLines.

(** A single or a double quote (written [\x22] in the comments below). *)
Definition quote : regex := chr "'" <|> chr "034".

(** [(export\s+)?], capture group 1 of the patterns of [guessItemType] *)
Definition export_prefix : regex := opt (Group 1 (lit "export" >> plus ws)).

(** [/^(export\s+)?(function|const\s+\w+\s*=\s*\([^)]*\)\s*=>|async\s+function)/] *)
Definition function_like : regex :=
  Bol >> export_prefix
  >> Group 2
       (lit "function"
        <|> (lit "const" >> plus ws >> plus word >> Star true ws >> chr "="
             >> Star true ws >> chr "(" >> Star true (none_of [")"%char])
             >> chr ")" >> Star true ws >> lit "=>")
        <|> (lit "async" >> plus ws >> lit "function")).

(** [/^(export\s+)?(class|interface|type)\s+/] *)
Definition type_bearing : regex :=
  Bol >> export_prefix
  >> Group 2 (lit "class" <|> lit "interface" <|> lit "type") >> plus ws.

(** [/^(export\s+)?(const|let|var)\s+/] *)
Definition variable_decl : regex :=
  Bol >> export_prefix
  >> Group 2 (lit "const" <|> lit "let" <|> lit "var") >> plus ws.

(** [/^(export\s+)?type\s+/] *)
Definition type_alias : regex :=
  Bol >> export_prefix >> lit "type" >> plus ws.

(** [/^\w+\s*:\s*/] *)
Definition property_shape : regex :=
  Bol >> plus word >> Star true ws >> chr ":" >> Star true ws.

(** [/^import\s+/] *)
Definition import_stmt : regex := Bol >> lit "import" >> plus ws.

(** [guessItemType(context)] *)
Definition guessItemType (context : string) : kind :=
  if test function_like context then function
  else if test type_bearing context then class
  else if test variable_decl context then constant
  else if test type_alias context then type
  else if test property_shape context then property
  else if test import_stmt context then import
  else unknown.

(** The table [patterns] of [extractIdentifierName]; [None] is a missing
    key. *)
Definition patterns (k : kind) : option regex :=
  match k with
  | function =>
      (* /(?:function\s+(\w+)|const\s+(\w+)\s*=|(\w+)\s*\([^)]*\)\s*{)/ *)
      Some ((lit "function" >> plus ws >> Group 1 (plus word))
            <|> (lit "const" >> plus ws >> Group 2 (plus word)
                 >> Star true ws >> chr "=")
            <|> (Group 3 (plus word) >> Star true ws >> chr "("
                 >> Star true (none_of [")"%char]) >> chr ")"
                 >> Star true ws >> chr "{"))
  | class =>
      (* /(?:class|interface|type)\s+(\w+)/ *)
      Some ((lit "class" <|> lit "interface" <|> lit "type")
            >> plus ws >> Group 1 (plus word))
  | constant =>
      (* /(?:const|let|var)\s+(\w+)/ *)
      Some ((lit "const" <|> lit "let" <|> lit "var")
            >> plus ws >> Group 1 (plus word))
  | type =>
      (* /type\s+(\w+)/ *)
      Some (lit "type" >> plus ws >> Group 1 (plus word))
  | property =>
      (* /(\w+)\s*:/ *)
      Some (Group 1 (plus word) >> Star true ws >> chr ":")
  | import =>
      (* /import\s+.*?from\s+['\x22]([^'\x22]+)['\x22]/ *)
      Some (lit "import" >> plus ws >> Star false dot >> lit "from"
            >> plus ws >> quote
            >> Group 1 (plus (none_of ["'"%char; "034"%char])) >> quote)
  | unknown => None
  end.

(** [/(\w+)/], the pattern used when the table has no entry *)
Definition first_word_pattern : regex := Group 1 (plus word).

(** The number of capture groups of a pattern, which is the length of the
    match array minus one. *)
Fixpoint ngroups (r : regex) : nat :=
  match r with
  | Eps | Class _ | Bol | Eol => 0
  | Seq r1 r2 | Alt r1 r2 => Nat.max (ngroups r1) (ngroups r2)
  | Star _ r' => ngroups r'
  | Group i r' => Nat.max i (ngroups r')
  end.

(** The array [context.match(pattern)] returns: the matched text, then one
    entry per group, [None] for a group that did not take part. *)
Definition match_array (r : regex) (m : match_result) : list (option string) :=
  Some (matched m) :: (group_of (groups m) <$> seq 1 (ngroups r)).

Definition truthy_group (group : option string) : bool :=
  match group with Some s => Js.truthy s | None => false end.

(** [match.find((group, index) => index > 0 && group)], from [index] on *)
Fixpoint find_group (index : nat) (arr : list (option string)) : option string :=
  match arr with
  | [] => None
  | group :: arr' =>
      if (0 <? index) && truthy_group group then group
      else find_group (S index) arr'
  end.

(** [extractIdentifierName(context, type)] *)
Definition extractIdentifierName (context : string) (type_ : kind) : string :=
  let pattern := default first_word_pattern (patterns type_) in
  match exec pattern context with
  | Some m => default "unknown" (find_group 0 (match_array pattern m))
  | None => "unknown"
  end.

(** [match[1]?.trim() || 'No reason provided'] *)
Definition deprecationReason (m : match_result) : string :=
  match group_of (groups m) 1 with
  | Some s => if Js.truthy (Js.trim s) then Js.trim s else "No reason provided"
  | None => "No reason provided"
  end.

(** The body of the outer loop of [findDeprecatedItems]: the items pushed
    for the line at index [i]. *)
Definition scanLine (filePath : string) (lines : list string) (i : nat)
    (line_ : string) : list Item :=
  let lineNumber := i + 1 in
  pattern ← DEPRECATED_PATTERNS;
  match exec pattern line_ with
  | Some m =>
      let context_ := getContextualInfo lines i in
      [ {| file := filePath; line := lineNumber;
           reason := deprecationReason m; context := context_;
           item_type := guessItemType context_; fullMatch := matched m |} ]
  | None => []
  end.

(** [findDeprecatedItems(content, filePath)] *)
Definition findDeprecatedItems (content filePath : string) : list Item :=
  let lines := Js.split_lines content in
  mjoin (imap (scanLine filePath lines) lines).

(** The key under which [categorizeDeprecatedItem] files an item. *)
Definition category (item : Item) : string :=
  if decide (item_type item = unknown) then "functions"
  else kind_name (item_type item) +:+ "s".

(** [categorizeDeprecatedItem(item)], on the field [this.deprecatedApis] *)
Definition categorizeDeprecatedItem (item : Item) (deprecatedApis : Api.registry)
    : Api.registry :=
  let category_ := category item in
  let deprecatedApis :=
    match Obj.get deprecatedApis category_ with
    | Some _ => deprecatedApis
    | None => Obj.set deprecatedApis category_ []
    end in
  let name_ := extractIdentifierName (context item) (item_type item) in
  Obj.set deprecatedApis category_
    (default [] (Obj.get deprecatedApis category_)
     ++ [ {| Api.name := name_; Api.reason := reason item;
             Api.file := file item; Api.line := line item;
             Api.context := context item |} ]).

(** What the script writes to the console. *)
Inductive console_event : Type :=
| log_extracting
| log_scanning (sourcePath : string)
| warn_not_found (sourcePath : string)
| log_file (relativePath : string) (count : nat)
| error_scanning (filePath message : string)
| log_found (total : nat).

(** The extractor object: its field and the console. *)
Record state : Type := {
  deprecatedApis : Api.registry;
  console : list console_event
}.

Definition write (e : console_event) (st : state) : state :=
  {| deprecatedApis := deprecatedApis st; console := console st ++ [e] |}.

(** The [constructor]. *)
Definition new_extractor : state :=
  {| deprecatedApis :=
       [("functions", []); ("classes", []); ("properties", []);
        ("constants", []); ("types", []); ("imports", [])];
     console := [] |}.

(** The Node.js functions the script calls.  [readFileSync] returns the
    content of a file or throws; [glob_sync dir pattern] is
    [glob.sync(path.join(dir, pattern), {ignore: ...})]. *)
Record host : Type := {
  existsSync : string → bool;
  glob_sync : string → string → list string;
  readFileSync : string → result string;
  path_relative : string → string → string
}.

(** [getRelativePath(filePath)] *)
Definition getRelativePath (h : host) (filePath : string) : string :=
  match list_find (λ sourcePath, Js.startsWith filePath sourcePath = true)
          FRONTEND_SOURCE_PATHS with
  | Some (_, sourcePath) => path_relative h sourcePath filePath
  | None => filePath
  end.

(** The [try] block of [scanFile]. *)
Definition scanFile_try (h : host) (filePath : string) (st : state) : result state :=
  try! content <- readFileSync h filePath;
  let relativePath := getRelativePath h filePath in
  let deprecatedItems := findDeprecatedItems content relativePath in
  if 0 <? List.length deprecatedItems then
    let st := write (log_file relativePath (List.length deprecatedItems)) st in
    Ok {| deprecatedApis :=
            foldl (λ apis item, categorizeDeprecatedItem item apis)
                  (deprecatedApis st) deprecatedItems;
          console := console st |}
  else Ok st.

(** [scanFile(filePath)]: the [try] block and its [catch]. *)
Definition scanFile (h : host) (filePath : string) (st : state) : result state :=
  match scanFile_try h filePath st with
  | Ok st' => Ok st'
  | Throw message => Ok (write (error_scanning filePath message) st)
  end.

(** [scanDirectory(dirPath)] *)
Definition scanDirectory (h : host) (dirPath : string) (st : state) : result state :=
  for_each (λ pattern st,
      let files := glob_sync h dirPath pattern in
      for_each (scanFile h) files st)
    FILE_PATTERNS st.

(** [getTotalCount()] *)
Definition getTotalCount (apis : Api.registry) : nat :=
  foldl (λ total category_, total + List.length category_) 0 (Obj.values apis).

(** [extract()] *)
Definition extract (h : host) (st : state) : result state :=
  let st := write log_extracting st in
  try! st <- for_each (λ sourcePath st,
      if existsSync h sourcePath then
        scanDirectory h sourcePath (write (log_scanning sourcePath) st)
      else Ok (write (warn_not_found sourcePath) st))
    FRONTEND_SOURCE_PATHS st;
  Ok (write (log_found (getTotalCount (deprecatedApis st))) st).

(** The object [generateOutput()] returns, which [main] serialises. *)
Record Output : Type := {
  extractedAt : string;
  totalCount : nat;
  sources : list string;
  output_deprecatedApis : Api.registry      (* the field [deprecatedApis] *)
}.

(** [generateOutput()]; [now] is [new Date().toISOString()]. *)
Definition generateOutput (now : string) (st : state) : Output :=
  {| extractedAt := now;
     totalCount := getTotalCount (deprecatedApis st);
     sources := FRONTEND_SOURCE_PATHS;
     output_deprecatedApis := deprecatedApis st |}.

(** What [main] uses besides the extractor: the clock, the output path
    [path.join(__dirname, '..', 'src', 'data', 'deprecated-apis.json')] and
    its directory, [fs.mkdirSync] and [fs.writeFileSync], which may throw,
    and [JSON.stringify(output, null, 2)]. *)
Record output_host : Type := {
  now : string;
  outputPath : string;
  outputDir : string;
  mkdirSync : string → result unit;
  writeFileSync : string → string → result unit;
  stringify : Output → string
}.

(** What [main] writes to the console, after the lines of the extractor. *)
Inductive main_event : Type :=
| from_extractor (e : console_event)
| log_written (path : string)
| log_summary
| log_category (category_ : string) (count : nat)
| error_main (message : string).

(** The lines of the summary: one per category that is not empty. *)
Definition summary (output : Output) : list main_event :=
  '(category_, items) ← Obj.entries (output_deprecatedApis output);
  if 0 <? List.length items then [log_category category_ (List.length items)]
  else [].

(** The outcome of a run of the script: the exit status, the console and
    the file written, if any. *)
Record outcome : Type := {
  exit_status : nat;
  main_console : list main_event;
  written : option (string * string)
}.

(** [main()]: the [try] block, and the [catch] that logs and exits with 1. *)
Definition main (h : host) (w : output_host) : outcome :=
  match extract h new_extractor with
  | Throw message =>
      {| exit_status := 1; main_console := [error_main message]; written := None |}
  | Ok st =>
      let lines := from_extractor <$> console st in
      let output := generateOutput (now w) st in
      match mkdirSync w (outputDir w) with
      | Throw message =>
          {| exit_status := 1; main_console := lines ++ [error_main message];
             written := None |}
      | Ok _ =>
          match writeFileSync w (outputPath w) (stringify w output) with
          | Throw message =>
              {| exit_status := 1;
                 main_console := lines ++ [error_main message];
                 written := None |}
          | Ok _ =>
              {| exit_status := 0;
                 main_console :=
                   lines ++ [log_written (outputPath w); log_summary]
                   ++ summary output;
                 written := Some (outputPath w, stringify w output) |}
          end
      end
  end.

End Extractor.

(** ** The syntax nodes the rule listens to

    Only the fields the handlers read are kept.  [loc] identifies an
    identifier node (its place in the file). *)

Module Ast.

Record Identifier : Type := { loc : nat; name : string }.

(** A child whose [type] the handlers test. *)
Inductive expr : Type :=
| IdentifierE (id : Identifier)
| MemberExpressionE (object property : expr)
| OtherE (type : string).

Inductive node : Type :=
| CallExpression (callee : expr)
| MemberExpression (object property : expr)
| VariableDeclarator (id : expr)
| FunctionDeclaration (id : option Identifier)
| ClassDeclaration (id : option Identifier)
| MethodDefinition (key : expr)
| ImportSpecifier (imported local : Identifier)
| ImportDefaultSpecifier (local : Identifier)
| ImportNamespaceSpecifier (local : Identifier)
| NewExpression (callee : expr)
| TSTypeReference (typeName : expr)
| Other (type : string).

End Ast.

(** ** The matcher: [src/rules/no-deprecated-comfyui-apis.ts] *)

Module Matcher.
Import Api.

(** The regular-expression engine of the JavaScript runtime, as [isIgnored]
    uses it: [new RegExp(pattern)] returns a regular expression or throws a
    [SyntaxError]; [regex.test(name)], for a regular expression without
    flags, tells whether the pattern matches somewhere in [name]. *)
Record engine : Type := {
  RegExp : Type;
  RegExp_new : string → result RegExp;
  RegExp_test : RegExp → string → bool
}.

(** An entry of the lookup map: [{...item, category}]. *)
Definition entry : Type := DeprecatedApi * string.

(** The body of [items.forEach] in the population of [deprecatedLookup]. *)
Definition push_entry (category : string) (m : gmap string (list entry))
    (item : DeprecatedApi) : gmap string (list entry) :=
  let key := Js.toLowerCase (name item) in
  let m := if decide (is_Some (m !! key)) then m else <[key := []]> m in
  <[key := default [] (m !! key) ++ [(item, category)]]> m.

(** [deprecatedLookup], populated from [deprecatedApis.deprecatedApis], the
    content of [data/deprecated-apis.json]. *)
Definition deprecatedLookup (data : registry) : gmap string (list entry) :=
  foldl (λ m '(category, items), foldl (push_entry category) m items)
    ∅ (Obj.entries data).

Inductive Severity : Type := error | warn | off.

(** The options object of the rule; [None] is a property left out. *)
Record RuleOptions : Type := {
  severity : option Severity;
  ignorePatterns : option (list string);
  showContext : option bool
}.

Definition defaultOptions : RuleOptions :=
  {| severity := Some warn; ignorePatterns := Some []; showContext := Some true |}.

Inductive MessageId : Type :=
| deprecatedApi | deprecatedApiWithContext | deprecatedApiGeneric.

(** The descriptor handed to [context.report]. *)
Record Report : Type := {
  node : Ast.Identifier;
  messageId : MessageId;
  data_name : string;
  data_reason : string;
  data_file : string;
  data_line : string
}.

Section create.
Context (E : engine) (data : registry) (options : RuleOptions).

(* const { severity = 'warn', ignorePatterns = [], showContext = true } = options; *)
Definition severity_ : Severity := default warn (severity options).
Definition ignorePatterns_ : list string := default [] (ignorePatterns options).
Definition showContext_ : bool := default true (showContext options).

(** The callback of [ignorePatterns.some]. *)
Definition ignores (name_ pattern : string) : bool :=
  match RegExp_new E pattern with
  | Ok regex => RegExp_test E regex name_
  | Throw _ => bool_decide (pattern = name_)
  end.

Definition isIgnored (name_ : string) : bool :=
  existsb (ignores name_) ignorePatterns_.

Definition reportDeprecated (node_ : Ast.Identifier) (name_ : string)
    (deprecatedInfo : entry) : list Report :=
  if isIgnored name_ then []
  else
    let info := deprecatedInfo.1 in
    let has_reason := negb (bool_decide (reason info = "No reason provided")) in
    let reason_ :=
      if has_reason then "Reason: " +:+ reason info
      else "Check ComfyUI documentation for alternatives." in
    let messageId_ :=
      if showContext_ && Js.truthy (file info) then deprecatedApiWithContext
      else if has_reason then deprecatedApi
      else deprecatedApiGeneric in
    [ {| node := node_; messageId := messageId_; data_name := name_;
         data_reason := reason_; data_file := file info;
         data_line := pretty (line info) |} ].

Definition builtIns : list string :=
  ["Set"; "Map"; "Array"; "Object"; "Promise"; "Function"; "String";
   "Number"; "Boolean"].

Definition checkIdentifier (node_ : Ast.Identifier) (name_ : string) : list Report :=
  if bool_decide (name_ ∈ builtIns) then []
  else
    match deprecatedLookup data !! Js.toLowerCase name_ with
    | Some (firstItem :: _) => reportDeprecated node_ name_ firstItem
    | _ => []
    end.

Definition checkExpr (e : Ast.expr) : list Report :=
  match e with
  | Ast.IdentifierE id => checkIdentifier id (Ast.name id)
  | _ => []
  end.

(** The listeners [create] returns, applied to a node of their type. *)
Definition visit (n : Ast.node) : list Report :=
  match n with
  | Ast.CallExpression callee =>
      match callee with
      | Ast.IdentifierE id => checkIdentifier id (Ast.name id)
      | Ast.MemberExpressionE _ (Ast.IdentifierE id) =>
          checkIdentifier id (Ast.name id)
      | _ => []
      end
  | Ast.MemberExpression _ property => checkExpr property
  | Ast.VariableDeclarator id => checkExpr id
  | Ast.FunctionDeclaration (Some id) => checkIdentifier id (Ast.name id)
  | Ast.FunctionDeclaration None => []
  | Ast.ClassDeclaration (Some id) => checkIdentifier id (Ast.name id)
  | Ast.ClassDeclaration None => []
  | Ast.MethodDefinition key => checkExpr key
  | Ast.ImportSpecifier imported _ => checkIdentifier imported (Ast.name imported)
  | Ast.ImportDefaultSpecifier local => checkIdentifier local (Ast.name local)
  | Ast.ImportNamespaceSpecifier local => checkIdentifier local (Ast.name local)
  | Ast.NewExpression callee => checkExpr callee
  | Ast.TSTypeReference typeName => checkExpr typeName
  | Ast.Other _ => []
  end.

(** The reports of one file: the host calls the listeners node by node. *)
Definition lint (nodes : list Ast.node) : list Report := nodes ≫= visit.

End create.

End Matcher.

(** ** Definitions used to state the properties *)

Module Spec.
Import Api.

(** The records of a registry in insertion order, each with its category:
    the order in which the lookup map is populated. *)
Definition flatten (data : registry) : list Matcher.entry :=
  '(category, items) ← Obj.entries data; (λ item, (item, category)) <$> items.

(** The records whose lower-cased name is [key], in insertion order. *)
Definition named (key : string) (l : list Matcher.entry) : list Matcher.entry :=
  filter (λ e, Js.toLowerCase (name e.1) = key) l.

Definition index_of (l : list Matcher.entry) (key : string)
    : option (list Matcher.entry) :=
  match named key l with
  | [] => None
  | e :: l' => Some (e :: l')
  end.

(** The identifier whose use a node denotes, if any: a call target, the
    property of a member access, a declared name, a method name, an imported
    binding, an instantiated type, a referenced type. *)
Definition occurrence (n : Ast.node) : option Ast.Identifier :=
  match n with
  | Ast.CallExpression (Ast.IdentifierE id) => Some id
  | Ast.CallExpression (Ast.MemberExpressionE _ (Ast.IdentifierE id)) => Some id
  | Ast.MemberExpression _ (Ast.IdentifierE id) => Some id
  | Ast.VariableDeclarator (Ast.IdentifierE id) => Some id
  | Ast.FunctionDeclaration (Some id) => Some id
  | Ast.ClassDeclaration (Some id) => Some id
  | Ast.MethodDefinition (Ast.IdentifierE id) => Some id
  | Ast.ImportSpecifier imported _ => Some imported
  | Ast.ImportDefaultSpecifier local => Some local
  | Ast.ImportNamespaceSpecifier local => Some local
  | Ast.NewExpression (Ast.IdentifierE id) => Some id
  | Ast.TSTypeReference (Ast.IdentifierE id) => Some id
  | _ => None
  end.

(** An engine for the examples: a pattern made of word characters compiles
    to the literal pattern, every other string is rejected. *)
Definition plain (p : string) : bool :=
  forallb Js.is_word (list_ascii_of_string p).

Definition sample_engine : Matcher.engine :=
  {| Matcher.RegExp := Re.regex;
     Matcher.RegExp_new p :=
       if plain p then Ok (Re.lit p) else Throw "SyntaxError";
     Matcher.RegExp_test := Re.test |}.

Definition serialise : DeprecatedApi :=
  {| name := "serialise"; reason := "Use JSON.stringify instead";
     file := "utils/vintageClipboard.ts"; line := 12;
     context := "export function serialise(items, graph) {" |}.

Definition sample_registry : registry :=
  [("functions", [serialise]); ("classs", []); ("propertys", [])].

(** A registry with a deprecated function named [set]. *)
Definition set_registry : registry :=
  [("functions",
    [ {| name := "set"; reason := "No reason provided"; file := "store.ts";
         line := 3; context := "export function set(key, value) {" |} ])].

Definition options_with (s : Matcher.Severity) (ignore : list string)
    : Matcher.RuleOptions :=
  {| Matcher.severity := Some s; Matcher.ignorePatterns := Some ignore;
     Matcher.showContext := Some true |}.

(** An item as the scanner pushes it for the first line of
    [// @deprecated use resize] followed by [export function grow() {}]. *)
Definition grow_item : Extractor.Item :=
  {| Extractor.file := "a.ts"; Extractor.line := 1;
     Extractor.reason := "use resize";
     Extractor.context := "export function grow() {}";
     Extractor.item_type := Extractor.function;
     Extractor.fullMatch := "@deprecated use resize" |}.

(** A host none of whose source roots exists. *)
Definition empty_host : Extractor.host :=
  {| Extractor.existsSync p := false;
     Extractor.glob_sync dir pattern := [];
     Extractor.readFileSync f := Throw "ENOENT";
     Extractor.path_relative from to := to |}.

(** A text without the character [@]. *)
Definition no_at (text : string) : bool :=
  Js.all_chars (λ a, negb (bool_decide (a = "@"%char))) text.

(** A text without the character [/]. *)
Definition no_slash (text : string) : bool :=
  Js.all_chars (λ a, negb (bool_decide (a = "/"%char))) text.

(** The cursors of a text from a position on, from left to right: the
    order in which a lazy repetition stops. *)
Fixpoint lazy_positions (n : nat) (s : string) : list (Re.cursor * Re.captures) :=
  (Re.Cursor n s, [])
  :: match s with
     | EmptyString => []
     | String _ s' => lazy_positions (S n) s'
     end.

(** The end of the leading-marker pattern: [(?:\n|$|\*\/)]. *)
Definition marker_end : Re.regex :=
  Re.Alt (Re.chr "010") (Re.Alt Re.Eol (Re.lit "*/")).

(** A text without line feed. *)
Definition no_newline (text : string) : bool :=
  Js.all_chars (λ a, negb (Js.is_newline a)) text.

(** The items of a file: none when the file cannot be read. *)
Definition items_of_file (h : Extractor.host) (filePath : string)
    : list Extractor.Item :=
  match Extractor.readFileSync h filePath with
  | Ok content =>
      Extractor.findDeprecatedItems content (Extractor.getRelativePath h filePath)
  | Throw _ => []
  end.

(** The files an extraction scans, in scanning order: for each source root
    that exists, for each file pattern, the files the pattern lists. *)
Definition all_files (h : Extractor.host) : list string :=
  sourcePath ← Extractor.FRONTEND_SOURCE_PATHS;
  if Extractor.existsSync h sourcePath then
    pattern ← Extractor.FILE_PATTERNS; Extractor.glob_sync h sourcePath pattern
  else [].

Definition all_items (h : Extractor.host) : list Extractor.Item :=
  all_files h ≫= items_of_file h.

(** The keys a registry can have after an extraction. *)
Definition category_names : list string :=
  ["functions"; "classes"; "properties"; "constants"; "types"; "imports";
   "classs"; "propertys"].

(** The options that differ from [options] in [showContext] only. *)
Definition with_showContext (options : Matcher.RuleOptions) (show : option bool)
    : Matcher.RuleOptions :=
  {| Matcher.severity := Matcher.severity options;
     Matcher.ignorePatterns := Matcher.ignorePatterns options;
     Matcher.showContext := show |}.

(** The options that differ from [options] in [ignorePatterns] only. *)
Definition with_ignorePatterns (options : Matcher.RuleOptions)
    (patterns : list string) : Matcher.RuleOptions :=
  {| Matcher.severity := Matcher.severity options;
     Matcher.ignorePatterns := Some patterns;
     Matcher.showContext := Matcher.showContext options |}.

Definition call (l : nat) (n : string) : Ast.node :=
  Ast.CallExpression (Ast.IdentifierE {| Ast.loc := l; Ast.name := n |}).

(** The record [categorizeDeprecatedItem] pushes for an item. *)
Definition record_of (item : Extractor.Item) : DeprecatedApi :=
  {| name := Extractor.extractIdentifierName (Extractor.context item)
               (Extractor.item_type item);
     reason := Extractor.reason item; file := Extractor.file item;
     line := Extractor.line item; context := Extractor.context item |}.

(** A context line is kept when, once trimmed, it is not empty and starts
    neither with [//] nor with [*]. *)
Definition is_kept (line_ : string) : bool :=
  Js.truthy line_ && negb (Js.startsWith line_ "//")
  && negb (Js.startsWith line_ "*").

(** What one line contributes to the context. *)
Definition contribution (l : string) : list string :=
  if is_kept (Js.trim l) then [Js.trim l] else [].

(** The lines around line [i]: at most [before] lines before it and at most
    [after] lines after it. *)
Definition window (before after : nat) (lines : list string) (i : nat)
    : list string :=
  take (i - (i - before)) (drop (i - before) lines)
  ++ take after (drop (S i) lines).

(** The context built from such a window: the lines are trimmed, the kept
    ones are joined with a single space. *)
Definition context_of_window (before after : nat) (lines : list string)
    (i : nat) : string :=
  Js.join " " (filter (λ l, is_kept l = true) (Js.trim <$> window before after lines i)).

(** The longest run of word characters at the start of a string. *)
Fixpoint word_prefix (s : string) : string :=
  match s with
  | EmptyString => EmptyString
  | String a s' => if Js.is_word a then String a (word_prefix s') else EmptyString
  end.

(** The first word of a string: its leftmost longest run of word
    characters; empty when the string has no word character. *)
Fixpoint first_word (s : string) : string :=
  match s with
  | EmptyString => EmptyString
  | String a s' => if Js.is_word a then String a (word_prefix s') else first_word s'
  end.

(** The name a pattern extracts: its first non-empty group, if it matches. *)
Definition capture_of (pattern : Re.regex) (context_ : string) : option string :=
  match Re.exec pattern context_ with
  | Some m =>
      Some (default "unknown"
              (Extractor.find_group 0 (Extractor.match_array pattern m)))
  | None => None
  end.

(** Name extraction as the specification words it: the pattern of the kind
    first; whenever it fails to match, the first-word pattern as a last
    resort; the name [unknown] only when both fail. *)
Definition name_with_fallback (context_ : string) (k : Extractor.kind) : string :=
  match from_option (λ pattern, capture_of pattern context_) None
          (Extractor.patterns k) with
  | Some name_ => name_
  | None => default "unknown" (capture_of Extractor.first_word_pattern context_)
  end.

(** A text without line terminators. *)
Definition single_line (text : string) : bool :=
  Js.all_chars (λ a, negb (Js.is_line_terminator a)) text.

(** The items found on the line with number [n]. *)
Definition items_of_line (n : nat) (items : list Extractor.Item)
    : list Extractor.Item :=
  filter (λ item, Extractor.line item = n) items.

(** Whether a file can be read. *)
Definition readable (h : Extractor.host) (filePath : string) : bool :=
  match Extractor.readFileSync h filePath with Ok _ => true | Throw _ => false end.

(** The registry after the scan of one file. *)
Definition scanned (h : Extractor.host) (apis : registry) (filePath : string)
    : registry :=
  match Extractor.readFileSync h filePath with
  | Ok content =>
      foldl (λ apis item, Extractor.categorizeDeprecatedItem item apis) apis
        (Extractor.findDeprecatedItems content (Extractor.getRelativePath h filePath))
  | Throw _ => apis
  end.

(** A source tree of two files, the second of which cannot be read. *)
Definition sample_host : Extractor.host :=
  {| Extractor.existsSync p := bool_decide (p = "/home/c_byrne/projects/comfyui-frontend-testing/ComfyUI_frontend/src");
     Extractor.glob_sync dir pattern :=
       if bool_decide (pattern = "**/*.ts") then ["a.ts"; "b.ts"; "c.ts"] else [];
     Extractor.readFileSync f :=
       if bool_decide (f = "a.ts")
       then Ok ("// @deprecated use resize" +:+ String "010" "export function grow() {}")
       else if bool_decide (f = "c.ts")
       then Ok ("/** @deprecated */" +:+ String "010" "export const size = 1")
       else Throw "EACCES: permission denied";
     Extractor.path_relative from to := to |}.

Definition widget_lines : list string :=
  ["export class Widget {"; "  size = 1"; "  // @deprecated use resize";
   "  grow() {"; "    this.size++"; "  }"].

(** A trimmed line that starts with a comment marker: a line comment, the
    opening of a block comment, or a line inside a block comment. *)
Definition starts_comment (line_ : string) : bool :=
  Js.startsWith line_ "//" || Js.startsWith line_ "/*" || Js.startsWith line_ "*".

(** A trimmed line that is neither blank nor a comment line. *)
Definition is_code_line (line_ : string) : bool :=
  Js.truthy line_ && negb (starts_comment line_).

(** The context as the specification words it, for a window of [before]
    lines before and [after] lines after line [i]: comment lines and blank
    lines are left out, the other lines are trimmed and joined with a
    single space. *)
Definition context_of_code_lines (before after : nat) (lines : list string)
    (i : nat) : string :=
  Js.join " "
    (filter (λ l, is_code_line l = true) (Js.trim <$> window before after lines i)).

(** A line that, once trimmed, opens a block comment. *)
Definition opens_block_comment (line_ : string) : bool :=
  Js.startsWith (Js.trim line_) "/*".

(** An annotation under a documentation comment of one line. *)
Definition doc_lines : list string :=
  ["/** Grows the widget. */"; "// @deprecated use resize";
   "export function grow() {}"].

(** An annotation inside a documentation block. *)
Definition jsdoc_lines : list string :=
  ["/**"; " * Grows the widget."; " * Kept for old nodes.";
   " * @deprecated use resize"; " */"; "export function grow() {";
   "  this.size++"; "}"].

(** A text without the character [*]. *)
Definition no_star (text : string) : bool :=
  Js.all_chars (λ a, negb (bool_decide (a = "*"%char))) text.

(** The name the specification asks for, given the groups of a match of a
    pattern with [n] groups: the text of the first group, in the order of
    their numbers, that took part in the match and is not empty. *)
Definition first_nonempty_group (n : nat) (g : Re.captures) (w : string) : Prop :=
  ∃ i, 1 ≤ i ≤ n ∧ Re.group_of g i = Some w ∧ w ≠ EmptyString ∧
       ∀ j, 1 ≤ j < i →
            Re.group_of g j = None ∨ Re.group_of g j = Some EmptyString.

(** No group took part in the match with a text that is not empty. *)
Definition no_nonempty_group (n : nat) (g : Re.captures) : Prop :=
  ∀ j, 1 ≤ j ≤ n →
       Re.group_of g j = None ∨ Re.group_of g j = Some EmptyString.

(** The first way in which a pattern matches at a cursor, which is the one
    a backtracking matcher reports: the cursor reached and the groups. *)
Definition first_match (r : Re.regex) (c c' : Re.cursor) (g : Re.captures) : Prop :=
  ∃ tl, Re.run r c = (c', g) :: tl.

(** A text made of white space. *)
Definition blank (ws : string) : Prop := Js.all_chars Js.is_space ws = true.

(** A text after which a run of characters of the class [p] ends: it is
    empty or starts with a character outside [p]. *)
Definition ends (p : ascii → bool) (s : string) : Prop :=
  match s with EmptyString => True | String c _ => p c = false end.

(** A text none of whose characters is in [l]. *)
Definition without (l : list ascii) (text : string) : bool :=
  Js.all_chars (λ a, bool_decide (a ∉ l)) text.

(** The start of a declaration: nothing, or [export] and a space. *)
Definition exported (pre : string) : Prop :=
  pre = EmptyString ∨ pre = "export ".

(** The two quote characters. *)
Definition quotes : list ascii := ["'"%char; "034"%char].

(** A repetition whose body is a single character class makes progress at
    every iteration, so the progress test of [Re.iter_star] keeps every
    result.  [run_classes] is [Re.run] without that test; the two agree on
    the patterns of [class_stars]. *)
Fixpoint iter_classes (greedy : bool)
    (body : Re.cursor → list (Re.cursor * Re.captures))
    (fuel : nat) (c : Re.cursor) : list (Re.cursor * Re.captures) :=
  match fuel with
  | 0 => [(c, [])]
  | S k =>
      let more :=
        x ← body c;
        y ← iter_classes greedy body k x.1;
        [(y.1, x.2 ++ y.2)] in
      if greedy then more ++ [(c, [])] else (c, []) :: more
  end.

Fixpoint run_classes (r : Re.regex) (c : Re.cursor)
    : list (Re.cursor * Re.captures) :=
  match r with
  | Re.Eps => [(c, [])]
  | Re.Class p =>
      match Re.rest c with
      | String a s => if p a then [(Re.Cursor (S (Re.pos c)) s, [])] else []
      | EmptyString => []
      end
  | Re.Seq r1 r2 =>
      x ← run_classes r1 c; y ← run_classes r2 x.1; [(y.1, x.2 ++ y.2)]
  | Re.Alt r1 r2 => run_classes r1 c ++ run_classes r2 c
  | Re.Star greedy r' =>
      iter_classes greedy (run_classes r') (String.length (Re.rest c)) c
  | Re.Group i r' =>
      x ← run_classes r' c; [(x.1, x.2 ++ [(i, Re.consumed c x.1)])]
  | Re.Bol => if Re.pos c =? 0 then [(c, [])] else []
  | Re.Eol => match Re.rest c with EmptyString => [(c, [])] | _ => [] end
  end.

Fixpoint class_stars (r : Re.regex) : bool :=
  match r with
  | Re.Star _ (Re.Class _) => true
  | Re.Star _ _ => false
  | Re.Seq r1 r2 | Re.Alt r1 r2 => class_stars r1 && class_stars r2
  | Re.Group _ r' => class_stars r'
  | _ => true
  end.

End Spec.

(** Closed decidable goals are settled by evaluation. *)
Ltac by_compute := apply (bool_decide_unpack _); vm_compute; exact I.

(** * Properties *)

(** ** The lookup map *)

Section lookup.
Import Api Matcher Spec.

Lemma named_snoc key l e :
  named key (l ++ [e])
  = named key l ++ (if decide (Js.toLowerCase (name e.1) = key) then [e] else []).
Proof.
  unfold named. by rewrite filter_app.
Qed.

Lemma index_of_snoc_eq l e :
  index_of (l ++ [e]) (Js.toLowerCase (name e.1))
  = Some (default [] (index_of l (Js.toLowerCase (name e.1))) ++ [e]).
Proof.
  unfold index_of. rewrite named_snoc. rewrite decide_True by done.
  by destruct (named _ l).
Qed.

Lemma index_of_snoc_ne l e key :
  Js.toLowerCase (name e.1) ≠ key → index_of (l ++ [e]) key = index_of l key.
Proof.
  intros Hne. unfold index_of. rewrite named_snoc. rewrite decide_False by done.
  by rewrite app_nil_r.
Qed.

Lemma push_entry_spec category m l item :
  (∀ key, m !! key = index_of l key) →
  ∀ key, push_entry category m item !! key = index_of (l ++ [(item, category)]) key.
Proof.
  intros Hm key. unfold push_entry.
  destruct (decide (Js.toLowerCase (name item) = key)) as [<-|Hne].
  - rewrite lookup_insert_eq.
    etrans; [|symmetry; apply (index_of_snoc_eq l (item, category))].
    cbn [fst]. f_equal. f_equal.
    case_decide as Hs.
    + by rewrite Hm.
    + rewrite lookup_insert_eq. rewrite <-Hm.
      destruct (m !! Js.toLowerCase (name item)) eqn:Heq; [|done].
      destruct Hs; eauto.
  - rewrite lookup_insert_ne by done.
    rewrite (index_of_snoc_ne l (item, category)) by done.
    case_decide; [done|]. by rewrite lookup_insert_ne.
Qed.

Lemma push_entries_spec category items m l :
  (∀ key, m !! key = index_of l key) →
  ∀ key, foldl (push_entry category) m items !! key
         = index_of (l ++ ((λ item, (item, category)) <$> items)) key.
Proof.
  revert m l. induction items as [|item items IH]; intros m l Hm key; simpl.
  - by rewrite app_nil_r.
  - rewrite (IH _ (l ++ [(item, category)])).
    + by rewrite <-app_assoc.
    + by apply push_entry_spec.
Qed.

Lemma populate_spec (data : registry) m l :
  (∀ key, m !! key = index_of l key) →
  ∀ key, foldl (λ m '(category, items), foldl (push_entry category) m items)
           m data !! key
         = index_of (l ++ flatten data) key.
Proof.
  revert m l. induction data as [|[category items] data IH]; intros m l Hm key.
  - simpl. by rewrite app_nil_r.
  - simpl. rewrite (IH _ (l ++ ((λ item, (item, category)) <$> items))).
    + unfold flatten, Obj.entries. simpl. by rewrite <-app_assoc.
    + by apply push_entries_spec.
Qed.

(** The index lists, under a key, the records with that lower-cased name
    in registry-insertion order; a key is present only with a record. *)
Lemma deprecatedLookup_spec data key :
  deprecatedLookup data !! key = index_of (flatten data) key.
Proof.
  unfold deprecatedLookup, Obj.entries.
  rewrite (populate_spec data ∅ []); [done|].
  intros key'. by rewrite lookup_empty.
Qed.

Lemma deprecatedLookup_nonempty data key l :
  deprecatedLookup data !! key = Some l → l ≠ [].
Proof.
  rewrite deprecatedLookup_spec. unfold index_of.
  destruct (named key (flatten data)); naive_solver.
Qed.
End lookup.

(** ** The matcher *)

Section matcher.
Import Api Matcher Spec.
Context (E : engine) (data : registry) (options : RuleOptions).

Lemma isIgnored_spec name_ :
  isIgnored E options name_ = true ↔
  ∃ pattern, pattern ∈ ignorePatterns_ options ∧
    match RegExp_new E pattern with
    | Ok regex => RegExp_test E regex name_ = true
    | Throw _ => pattern = name_
    end.
Proof.
  unfold isIgnored. rewrite existsb_exists. split.
  - intros (pattern & Hin & Hp). exists pattern. split; [by apply list_elem_of_In|].
    unfold ignores in Hp. destruct (RegExp_new E pattern); [done|].
    by apply bool_decide_eq_true in Hp.
  - intros (pattern & Hin & Hp). exists pattern. split; [by apply list_elem_of_In|].
    unfold ignores. destruct (RegExp_new E pattern); [done|].
    by apply bool_decide_eq_true.
Qed.

Lemma reportDeprecated_kept node_ name_ info :
  isIgnored E options name_ = false →
  ∃ r, reportDeprecated E options node_ name_ info = [r] ∧
       node r = node_ ∧ data_name r = name_ ∧
       data_file r = file info.1 ∧ data_line r = pretty (line info.1).
Proof.
  intros Hi. unfold reportDeprecated. rewrite Hi. eauto 10.
Qed.

Lemma checkIdentifier_hit node_ name_ first others :
  name_ ∉ builtIns →
  deprecatedLookup data !! Js.toLowerCase name_ = Some (first :: others) →
  checkIdentifier E data options node_ name_
  = reportDeprecated E options node_ name_ first.
Proof.
  intros Hb Hl. unfold checkIdentifier.
  rewrite bool_decide_eq_false_2 by done. by rewrite Hl.
Qed.

Lemma visit_occurrence n id :
  occurrence n = Some id →
  visit E data options n = checkIdentifier E data options id (Ast.name id).
Proof.
  destruct n as [[|? []|]|? []|[]|[]|[]|[]| | | |[]|[]|]; simpl;
    intros; simplify_eq; done.
Qed.

Lemma lint_replicate k n r :
  visit E data options n = [r] →
  lint E data options (replicate k n) = replicate k r.
Proof.
  intros Hv. unfold lint. induction k as [|k IH]; [done|].
  simpl. rewrite Hv. simpl. f_equal. apply IH.
Qed.
End matcher.

Section reporting.
Import Api Matcher Spec.

(** The option [severity] is read from the options and never used: the
    reports of a file are the same at every severity. *)
Lemma lint_severity_unused E data s s' ignore show nodes :
  lint E data {| severity := s; ignorePatterns := ignore; showContext := show |} nodes
  = lint E data {| severity := s'; ignorePatterns := ignore; showContext := show |} nodes.
Proof. reflexivity. Qed.

(** C1, at the failing input: with the option [severity] set to [off], a
    registry that holds [serialise] and a file that calls [serialise]
    once, the matcher still emits one report; the option disables
    nothing. *)
Theorem severity_off_still_reports :
  severity_ (options_with off []) = off ∧
  lint sample_engine sample_registry (options_with off []) [call 1 "serialise"]
  = [ {| node := {| Ast.loc := 1; Ast.name := "serialise" |};
         messageId := deprecatedApiWithContext;
         data_name := "serialise";
         data_reason := "Reason: Use JSON.stringify instead";
         data_file := "utils/vintageClipboard.ts";
         data_line := "12" |} ].
Proof. split; [reflexivity|]. vm_compute. reflexivity. Qed.

(** C2: a node that denotes the use of an identifier whose lower-cased
    name is a key of the index, that is no built-in and is not ignored,
    yields exactly one report, at that identifier, made from the first
    record of the registry (in insertion order) with that lower-cased
    name; reports are not deduplicated: [k] visits of such a node yield
    [k] reports. *)
Theorem one_report_per_occurrence E data options n id :
  occurrence n = Some id →
  is_Some (deprecatedLookup data !! Js.toLowerCase (Ast.name id)) →
  Ast.name id ∉ builtIns →
  isIgnored E options (Ast.name id) = false →
  ∃ first r,
    head (named (Js.toLowerCase (Ast.name id)) (flatten data)) = Some first ∧
    head <$> (deprecatedLookup data !! Js.toLowerCase (Ast.name id))
      = Some (Some first) ∧
    visit E data options n = [r] ∧
    node r = id ∧ data_name r = Ast.name id ∧
    data_file r = file first.1 ∧ data_line r = pretty (line first.1) ∧
    ∀ k, lint E data options (replicate k n) = replicate k r.
Proof.
  intros Hocc [l Hl] Hb Hi.
  pose proof (deprecatedLookup_nonempty _ _ _ Hl) as Hne.
  destruct l as [|first others]; [done|].
  destruct (reportDeprecated_kept E options id (Ast.name id) first Hi)
    as (r & Hr & Hnode & Hname & Hfile & Hline).
  assert (visit E data options n = [r]) as Hv.
  { rewrite (visit_occurrence _ _ _ _ _ Hocc).
    by rewrite (checkIdentifier_hit _ _ _ _ _ first others). }
  exists first, r. split_and!; try done.
  - rewrite deprecatedLookup_spec in Hl. unfold index_of in Hl.
    destruct (named _ (flatten data)); by simplify_eq.
  - by rewrite Hl.
  - intros k. by apply lint_replicate.
Qed.

Lemma one_report_per_occurrence_witness :
  ∃ first r,
    head (named (Js.toLowerCase "Serialise") (flatten sample_registry)) = Some first ∧
    head <$> (deprecatedLookup sample_registry !! Js.toLowerCase "Serialise")
      = Some (Some first) ∧
    visit sample_engine sample_registry (options_with warn ["old"]) (call 7 "Serialise") = [r] ∧
    node r = {| Ast.loc := 7; Ast.name := "Serialise" |} ∧
    data_name r = "Serialise" ∧
    data_file r = file first.1 ∧ data_line r = pretty (line first.1) ∧
    ∀ k, lint sample_engine sample_registry (options_with warn ["old"])
           (replicate k (call 7 "Serialise")) = replicate k r.
Proof.
  apply (one_report_per_occurrence sample_engine sample_registry
           (options_with warn ["old"]) (call 7 "Serialise")
           {| Ast.loc := 7; Ast.name := "Serialise" |}).
  - reflexivity.
  - eexists. vm_compute. reflexivity.
  - by_compute.
  - vm_compute. reflexivity.
Defined.

(** A method call [o.serialise()] is visited twice by the host, as a call
    and as a member access; each visit reports the property once. *)
Example member_call_is_two_occurrences :
  let property := Ast.IdentifierE {| Ast.loc := 9; Ast.name := "serialise" |} in
  let member := Ast.MemberExpressionE (Ast.OtherE "ThisExpression") property in
  List.length (lint sample_engine sample_registry (options_with warn [])
                 [Ast.CallExpression member;
                  Ast.MemberExpression (Ast.OtherE "ThisExpression") property])
  = 2.
Proof. by vm_compute. Qed.

(** C3, as stated, fails: the registry holds a function [set], so the
    lower-casing of [Set] is a key of the index and no ignore rule is
    given, yet a use of [Set] is not reported, while a use of [set] is. *)
Lemma builtin_casing_not_reported :
  let id := {| Ast.loc := 1; Ast.name := "Set" |} in
  is_Some (deprecatedLookup set_registry !! Js.toLowerCase "Set") ∧
  ignorePatterns_ (options_with warn []) = [] ∧
  checkIdentifier sample_engine set_registry (options_with warn []) id "Set" = [] ∧
  List.length (checkIdentifier sample_engine set_registry (options_with warn []) id "set") = 1.
Proof.
  split_and!; [eexists; vm_compute; reflexivity|reflexivity|by vm_compute..].
Qed.

(** C3, amended: for two spellings of an identifier that differ only in
    case and of which neither is one of the nine built-in names, and
    without ignore patterns, the matcher reports both or neither; when
    the common lower-casing is a key of the index, each use yields
    exactly one report. *)
Theorem report_invariant_under_case E data options id X Y :
  Js.toLowerCase X = Js.toLowerCase Y →
  X ∉ builtIns → Y ∉ builtIns →
  ignorePatterns_ options = [] →
  List.length (checkIdentifier E data options id X)
  = List.length (checkIdentifier E data options id Y) ∧
  (is_Some (deprecatedLookup data !! Js.toLowerCase X) →
   List.length (checkIdentifier E data options id X) = 1 ∧
   List.length (checkIdentifier E data options id Y) = 1).
Proof.
  intros Hcase HX HY Hig.
  assert (∀ name_, isIgnored E options name_ = false) as Hi.
  { intros name_. unfold isIgnored. by rewrite Hig. }
  assert (∀ Z, Z ∉ builtIns → Js.toLowerCase Z = Js.toLowerCase X →
    List.length (checkIdentifier E data options id Z)
    = match deprecatedLookup data !! Js.toLowerCase X with
      | Some _ => 1 | None => 0 end) as Hlen.
  { intros Z HZ HZX. unfold checkIdentifier.
    rewrite bool_decide_eq_false_2 by done. rewrite HZX.
    destruct (deprecatedLookup data !! Js.toLowerCase X) as [l|] eqn:Hl; [|done].
    pose proof (deprecatedLookup_nonempty _ _ _ Hl).
    destruct l as [|first others]; [done|].
    destruct (reportDeprecated_kept E options id Z first (Hi Z)) as (r & -> & _).
    done. }
  rewrite (Hlen X), (Hlen Y) by done. split; [done|].
  by intros [l ->].
Qed.

Lemma report_invariant_under_case_witness :
  let id := {| Ast.loc := 4; Ast.name := "SERIALISE" |} in
  List.length (checkIdentifier sample_engine sample_registry (options_with error []) id "SERIALISE")
  = List.length (checkIdentifier sample_engine sample_registry (options_with error []) id "serialise") ∧
  (is_Some (deprecatedLookup sample_registry !! Js.toLowerCase "SERIALISE") →
   List.length (checkIdentifier sample_engine sample_registry (options_with error []) id "SERIALISE") = 1 ∧
   List.length (checkIdentifier sample_engine sample_registry (options_with error []) id "serialise") = 1).
Proof.
  apply (report_invariant_under_case sample_engine sample_registry
           (options_with error []) {| Ast.loc := 4; Ast.name := "SERIALISE" |}
           "SERIALISE" "serialise").
  - vm_compute. reflexivity.
  - by_compute.
  - by_compute.
  - reflexivity.
Defined.

(** C6: a name is ignored exactly when some entry of [ignorePatterns]
    accepts it, each entry being judged on its own: an entry that
    compiles as a regular expression accepts the name when the regular
    expression matches in it, an entry that does not compile accepts the
    name when it equals it; and an ignored name is never reported. *)
Theorem ignore_patterns_suppress E data options name_ :
  (isIgnored E options name_ = true ↔
   ∃ pattern, pattern ∈ ignorePatterns_ options ∧
     match RegExp_new E pattern with
     | Ok regex => RegExp_test E regex name_ = true
     | Throw _ => pattern = name_
     end) ∧
  (∀ before pattern after,
     ignorePatterns_ options = before ++ pattern :: after →
     isIgnored E options name_
     = existsb (ignores E name_) before || ignores E name_ pattern
       || existsb (ignores E name_) after) ∧
  (isIgnored E options name_ = true →
   ∀ node_ info, reportDeprecated E options node_ name_ info = [] ∧
                 checkIdentifier E data options node_ name_ = []).
Proof.
  split_and!.
  - apply isIgnored_spec.
  - intros before pattern after Heq. unfold isIgnored. rewrite Heq.
    rewrite existsb_app. simpl. by rewrite orb_assoc.
  - intros Hi node_ info. unfold checkIdentifier, reportDeprecated.
    rewrite Hi. split; [done|].
    case_bool_decide; [done|].
    by destruct (deprecatedLookup data !! _) as [[|??]|].
Qed.

(** The pattern [(] does not compile and is compared as a string; the
    pattern [serialise] compiles and suppresses the report. *)
Lemma ignore_patterns_suppress_witness :
  let options := options_with warn ["("; "serialise"] in
  isIgnored sample_engine options "serialise" = true ∧
  (∀ node_ info, reportDeprecated sample_engine options node_ "serialise" info = [] ∧
                 checkIdentifier sample_engine sample_registry options node_ "serialise" = []).
Proof.
  pose proof (ignore_patterns_suppress sample_engine sample_registry
                (options_with warn ["("; "serialise"]) "serialise")
    as (_ & _ & H).
  split; [by vm_compute|]. apply H. by vm_compute.
Defined.
End reporting.

(** ** Objects *)

Section objects.
Context {V : Type}.
Implicit Types (o : Obj.object V) (k : string) (v : V).

Lemma get_set_eq o k v : Obj.get (Obj.set o k v) k = Some v.
Proof.
  induction o as [|[k' v'] o IH]; simpl.
  - by rewrite decide_True.
  - destruct (decide (k' = k)) as [->|Hne]; simpl.
    + by rewrite decide_True.
    + by rewrite decide_False.
Qed.

Lemma get_set_ne o k k' v : k ≠ k' → Obj.get (Obj.set o k v) k' = Obj.get o k'.
Proof.
  intros Hne. induction o as [|[k0 v0] o IH]; simpl.
  - by rewrite decide_False.
  - destruct (decide (k0 = k)) as [->|Hne0]; simpl.
    + by rewrite !decide_False.
    + by rewrite IH.
Qed.
End objects.

Lemma getTotalCount_fold (l : list (list Api.DeprecatedApi)) (a : nat) :
  foldl (λ total category_, total + List.length category_) a l
  = a + foldl (λ total category_, total + List.length category_) 0 l.
Proof.
  revert a. induction l as [|c l IH]; intros a; simpl; [lia|].
  rewrite (IH (a + _)), (IH (List.length c)). lia.
Qed.

Lemma getTotalCount_cons k c (o : Api.registry) :
  Extractor.getTotalCount ((k, c) :: o) = List.length c + Extractor.getTotalCount o.
Proof.
  unfold Extractor.getTotalCount, Obj.values. simpl. by rewrite getTotalCount_fold.
Qed.

Lemma getTotalCount_set (o : Api.registry) k v :
  Extractor.getTotalCount (Obj.set o k v) + List.length (default [] (Obj.get o k))
  = Extractor.getTotalCount o + List.length v.
Proof.
  induction o as [|[k' v'] o IH]; simpl.
  - rewrite getTotalCount_cons. unfold Extractor.getTotalCount. simpl. lia.
  - destruct (decide (k' = k)) as [->|Hne]; rewrite !getTotalCount_cons; simpl; lia.
Qed.

(** ** The registry builder *)

Section builder.
Import Api Extractor Spec.

Lemma categorize_get_eq item (apis : registry) :
  Obj.get (categorizeDeprecatedItem item apis) (category item)
  = Some (default [] (Obj.get apis (category item)) ++ [record_of item]).
Proof.
  unfold categorizeDeprecatedItem. rewrite get_set_eq. do 2 f_equal.
  destruct (Obj.get apis (category item)) eqn:Hg; [by rewrite Hg|].
  by rewrite get_set_eq.
Qed.

Lemma categorize_get_ne item (apis : registry) k :
  k ≠ category item →
  Obj.get (categorizeDeprecatedItem item apis) k = Obj.get apis k.
Proof.
  intros Hne. unfold categorizeDeprecatedItem.
  rewrite get_set_ne by done.
  destruct (Obj.get apis (category item)); [done|]. by rewrite get_set_ne.
Qed.

Lemma categorize_total item (apis : registry) :
  getTotalCount (categorizeDeprecatedItem item apis) = S (getTotalCount apis).
Proof.
  unfold categorizeDeprecatedItem.
  set (apis' := match Obj.get apis (category item) with
                | Some _ => apis | None => Obj.set apis (category item) [] end).
  assert (getTotalCount apis' = getTotalCount apis) as Ht.
  { unfold apis'. destruct (Obj.get apis (category item)) eqn:Hg; [done|].
    pose proof (getTotalCount_set apis (category item) []) as H.
    rewrite Hg in H. simpl in H. lia. }
  pose proof (getTotalCount_set apis' (category item)
    (default [] (Obj.get apis' (category item)) ++ [record_of item])) as H.
  rewrite length_app in H. simpl in H. fold (record_of item). lia.
Qed.

Lemma categorize_all_total items (apis : registry) :
  getTotalCount (foldl (λ apis item, categorizeDeprecatedItem item apis) apis items)
  = getTotalCount apis + List.length items.
Proof.
  revert apis. induction items as [|item items IH]; intros apis; simpl; [lia|].
  rewrite IH, categorize_total. lia.
Qed.

(** C7: an item is filed, as the last record, under the key made of its
    kind followed by the letter s ([functions], [classs], [constants],
    [types], [propertys], [imports]), except that an item of kind
    [unknown] is filed under [functions]; no other key changes. *)
Theorem category_key_is_kind_plus_s item (apis : registry) :
  let key := match item_type item with
             | function => "functions" | class => "classs"
             | constant => "constants" | type => "types"
             | property => "propertys" | import => "imports"
             | unknown => "functions"
             end in
  key = (if decide (item_type item = unknown) then "functions"
         else kind_name (item_type item) +:+ "s") ∧
  Obj.get (categorizeDeprecatedItem item apis) key
  = Some (default [] (Obj.get apis key) ++ [record_of item]) ∧
  ∀ k, k ≠ key → Obj.get (categorizeDeprecatedItem item apis) k = Obj.get apis k.
Proof.
  assert (category item = match item_type item with
             | function => "functions" | class => "classs"
             | constant => "constants" | type => "types"
             | property => "propertys" | import => "imports"
             | unknown => "functions"
             end) as Hc.
  { unfold category. by destruct (item_type item). }
  simpl. rewrite <-Hc. split_and!.
  - done.
  - apply categorize_get_eq.
  - intros k Hk. by apply categorize_get_ne.
Qed.
End builder.

(** ** The context of an annotation *)

Section context.
Import Extractor Spec.

Lemma kept_lines_bind (w : list string) :
  filter (λ l, is_kept l = true) (Js.trim <$> w) = w ≫= contribution.
Proof.
  induction w as [|l w IH]; [done|].
  rewrite fmap_cons, filter_cons, IH, bind_cons. unfold contribution at 3.
  case_decide as Hk; [by rewrite Hk|].
  by apply not_true_is_false in Hk as ->.
Qed.

Lemma slice_bind (lines : list string) (i a n : nat) :
  a + n ≤ List.length lines →
  (∀ j, a ≤ j < a + n → j ≠ i) →
  (seq a n ≫= λ j,
     if decide (j ≠ i) then contribution (default EmptyString (lines !! j)) else [])
  = take n (drop a lines) ≫= contribution.
Proof.
  revert a. induction n as [|n IH]; intros a Hlen Hne; [done|].
  destruct (lookup_lt_is_Some_2 lines a) as [x Hx]; [lia|].
  rewrite (drop_S _ _ _ Hx). simpl.
  rewrite decide_True by (apply Hne; lia). rewrite Hx. simpl.
  f_equal. apply IH; [lia|]. intros j Hj. apply Hne. lia.
Qed.

(** The lines [getContextualInfo] reads are the two before and the two
    after line [i]; it keeps those that, once trimmed, are not empty and
    start neither with [//] nor with [*]. *)
Lemma getContextualInfo_window (lines : list string) (i : nat) :
  i < List.length lines →
  getContextualInfo lines i = context_of_window 2 2 lines i.
Proof.
  intros Hi. unfold getContextualInfo, context_of_window. f_equal.
  rewrite kept_lines_bind. unfold window. rewrite bind_app.
  change (Nat.max 0 (i - 2)) with (i - 2).
  set (e := Nat.min (List.length lines) (i + 3)).
  replace (e - (i - 2)) with ((i - (i - 2)) + (1 + (e - S i))) by lia.
  rewrite !seq_app, !bind_app.
  replace (i - 2 + (i - (i - 2))) with i by lia.
  replace (i + 1) with (S i) by lia.
  f_equal; [|simpl; rewrite decide_False by (intros H; by apply H)].
  - apply (slice_bind lines i); lia.
  - simpl.
    replace (take 2 (drop (S i) lines)) with (take (e - S i) (drop (S i) lines)).
    + apply (slice_bind lines i); lia.
    + destruct (decide (i + 3 ≤ List.length lines)).
      * f_equal. lia.
      * rewrite !take_ge; [done|rewrite length_drop; lia..].
Qed.

Lemma filter_code_lines (w : list string) :
  Forall (λ l, opens_block_comment l = false) w →
  filter (λ l, is_kept l = true) (Js.trim <$> w)
  = filter (λ l, is_code_line l = true) (Js.trim <$> w).
Proof.
  induction 1 as [|l w Hl _ IH]; [done|].
  rewrite fmap_cons, !filter_cons, IH.
  unfold opens_block_comment in Hl.
  assert (is_kept (Js.trim l) = is_code_line (Js.trim l)) as ->; [|done].
  unfold is_kept, is_code_line, starts_comment. rewrite Hl.
  by destruct (Js.truthy _), (Js.startsWith _ "//"), (Js.startsWith _ "*").
Qed.

(** C4, as stated, fails, in two ways.  For the annotation at index 2 of a
    six-line file the context ends with the second line after the
    annotation: the third line after it is not part of it.  And for an
    annotation under a documentation comment of one line, that comment,
    which is a comment-only line, is part of the context, which is then
    classified as unknown. *)
Lemma context_window_and_comment_lines :
  (getContextualInfo widget_lines 2
   = "export class Widget { size = 1 grow() { this.size++" ∧
   context_of_code_lines 2 3 widget_lines 2
   = "export class Widget { size = 1 grow() { this.size++ }" ∧
   getContextualInfo widget_lines 2 ≠ context_of_code_lines 2 3 widget_lines 2) ∧
  (getContextualInfo doc_lines 1
   = "/** Grows the widget. */ export function grow() {}" ∧
   context_of_code_lines 2 3 doc_lines 1 = "export function grow() {}" ∧
   getContextualInfo doc_lines 1 ≠ context_of_code_lines 2 3 doc_lines 1 ∧
   guessItemType (getContextualInfo doc_lines 1) = unknown).
Proof.
  split; split_and!; try (by vm_compute); vm_compute; discriminate.
Qed.

(** C4, amended: for an annotation at line [i] of a file, the context is
    built from the two lines before and the two lines after line [i] (as
    many as the file has), line [i] excluded: each line is trimmed, the
    blank lines and the comment lines are left out, and the others are
    joined with a single space.  This is stated for the annotations none
    of whose four surrounding lines opens a block comment with [/*]; what
    becomes of such a line is left out. *)
Theorem context_is_two_before_two_after (lines : list string) (i : nat) :
  i < List.length lines →
  Forall (λ l, opens_block_comment l = false) (window 2 2 lines i) →
  getContextualInfo lines i = context_of_code_lines 2 2 lines i.
Proof.
  intros Hi Hw. rewrite getContextualInfo_window by done.
  unfold context_of_window, context_of_code_lines.
  by rewrite filter_code_lines.
Qed.

Lemma context_is_two_before_two_after_witness :
  window 2 2 jsdoc_lines 3
  = [" * Grows the widget."; " * Kept for old nodes."; " */";
     "export function grow() {"] ∧
  getContextualInfo jsdoc_lines 3 = "export function grow() {".
Proof.
  split; [by vm_compute|].
  rewrite (context_is_two_before_two_after jsdoc_lines 3).
  - by vm_compute.
  - vm_compute. lia.
  - repeat constructor.
Defined.
End context.


(** ** Scanning files *)

Section scanning.
Import Api Extractor Spec.
Context (h : host).

Lemma for_each_total {A S} (body : A → S → result S) l s :
  (∀ a s, ∃ s', body a s = Ok s') → ∃ s', for_each body l s = Ok s'.
Proof.
  intros Hbody. revert s. induction l as [|a l IH]; intros s; simpl; [eauto|].
  destruct (Hbody a s) as [s' ->]. simpl. apply IH.
Qed.

Lemma scanFile_unreadable filePath message st :
  readFileSync h filePath = Throw message →
  scanFile h filePath st = Ok (write (error_scanning filePath message) st).
Proof. intros Hr. unfold scanFile, scanFile_try. by rewrite Hr. Qed.

Lemma scanFile_scanned filePath st :
  ∃ st', scanFile h filePath st = Ok st' ∧
         deprecatedApis st' = scanned h (deprecatedApis st) filePath.
Proof.
  unfold scanFile, scanFile_try, scanned.
  destruct (readFileSync h filePath) as [content|message]; simpl; [|eauto].
  destruct (findDeprecatedItems content (getRelativePath h filePath)); simpl; eauto.
Qed.

Lemma scanFile_total filePath st : ∃ st', scanFile h filePath st = Ok st'.
Proof. destruct (scanFile_scanned filePath st) as (st' & ? & _). eauto. Qed.

Lemma scan_files_scanned files st :
  ∃ st', for_each (scanFile h) files st = Ok st' ∧
         deprecatedApis st' = foldl (scanned h) (deprecatedApis st) files.
Proof.
  revert st. induction files as [|f files IH]; intros st; simpl; [eauto|].
  destruct (scanFile_scanned f st) as (st1 & -> & Hst1). simpl.
  destruct (IH st1) as (st' & -> & Hst'). rewrite Hst1 in Hst'. eauto.
Qed.

Lemma scanned_readable_only files (apis : registry) :
  foldl (scanned h) apis files
  = foldl (scanned h) apis (filter (λ f, readable h f = true) files).
Proof.
  revert apis. induction files as [|f files IH]; intros apis; [done|].
  rewrite filter_cons. simpl. case_decide as Hr; simpl; [apply IH|].
  rewrite IH. f_equal. unfold scanned, readable in *.
  by destruct (readFileSync h f).
Qed.

Lemma scanDirectory_total dirPath st : ∃ st', scanDirectory h dirPath st = Ok st'.
Proof.
  apply for_each_total. intros pattern st0.
  apply for_each_total. apply scanFile_total.
Qed.

Lemma extract_total st : ∃ st', extract h st = Ok st'.
Proof.
  unfold extract.
  destruct (for_each_total
    (λ sourcePath st,
       if existsSync h sourcePath then
         scanDirectory h sourcePath (write (log_scanning sourcePath) st)
       else Ok (write (warn_not_found sourcePath) st))
    FRONTEND_SOURCE_PATHS (write log_extracting st)) as [st' Hst'].
  - intros sourcePath st0. destruct (existsSync h sourcePath); [|eauto].
    apply scanDirectory_total.
  - rewrite Hst'. simpl. eauto.
Qed.

(** C8: a file that cannot be read is skipped: its scan throws nothing,
    writes one error to the console and leaves the registry as it was; a
    scan of a list of files always completes, with the registry that the
    scan of the readable files alone produces; and the extraction as a
    whole always completes. *)
Theorem scan_failure_is_skipped :
  (∀ filePath message st,
     readFileSync h filePath = Throw message →
     scanFile h filePath st = Ok (write (error_scanning filePath message) st)) ∧
  (∀ files st, ∃ st' st'',
     for_each (scanFile h) files st = Ok st' ∧
     for_each (scanFile h) (filter (λ f, readable h f = true) files) st = Ok st'' ∧
     deprecatedApis st' = deprecatedApis st'') ∧
  (∀ dirPath st, ∃ st', scanDirectory h dirPath st = Ok st') ∧
  (∀ st, ∃ st', extract h st = Ok st').
Proof.
  split_and!.
  - apply scanFile_unreadable.
  - intros files st.
    destruct (scan_files_scanned files st) as (st' & Hst' & Hapis').
    destruct (scan_files_scanned (filter (λ f, readable h f = true) files) st)
      as (st'' & Hst'' & Hapis'').
    exists st', st''. split_and!; [done..|].
    rewrite Hapis', Hapis''. apply scanned_readable_only.
  - apply scanDirectory_total.
  - apply extract_total.
Qed.
End scanning.

(** The sample tree: [b.ts] cannot be read; the extraction completes with
    the four records of [a.ts] and [c.ts] and one error on the console. *)
Example extract_sample_host :
  ∃ st, Extractor.extract Spec.sample_host Extractor.new_extractor = Ok st ∧
        Extractor.getTotalCount (Extractor.deprecatedApis st) = 4 ∧
        Extractor.console st !! 4
        = Some (Extractor.error_scanning "b.ts" "EACCES: permission denied").
Proof. eexists. split_and!; by vm_compute. Qed.


(** ** The regular-expression matcher *)

Section matcher_facts.
Import Re.

(** The matcher on annotation lines of the usual shapes. *)
Example exec_jsdoc_line :
  exec Extractor.leading_marker " * @deprecated Use newThing instead */"
  = Some (Match 3 "@deprecated Use newThing instead */"
            [(1, "Use newThing instead ")]).
Proof. by vm_compute. Qed.

Example exec_block_comment :
  exec Extractor.block_comment "  /** @Deprecated since 1.2 */ foo()"
  = Some (Match 2 "/** @Deprecated since 1.2 */" []).
Proof. by vm_compute. Qed.

Example exec_line_comment :
  exec Extractor.line_comment "x = 1; //   @deprecated use y"
  = Some (Match 7 "//   @deprecated use y" [(1, "use y")]).
Proof. by vm_compute. Qed.

(** A line that keeps a carriage return at its end (a file with CR LF line
    ends, split at LF) is matched by the single-line-comment pattern only:
    the leading-marker pattern needs the end of the line, a line feed or
    the end of a block comment after the text. *)
Example exec_line_with_carriage_return :
  let line_ := "// @deprecated use y" +:+ String "013" EmptyString in
  exec Extractor.leading_marker line_ = None ∧
  exec Extractor.line_comment line_
  = Some (Match 0 "// @deprecated use y" [(1, "use y")]).
Proof. split; by vm_compute. Qed.

Example guessItemType_samples :
  Extractor.guessItemType "export async function load() {" = Extractor.function ∧
  Extractor.guessItemType "const f = (a, b) => a" = Extractor.function ∧
  Extractor.guessItemType "export interface Props {" = Extractor.class ∧
  Extractor.guessItemType "export type Id = string" = Extractor.class ∧
  Extractor.guessItemType "let count = 0" = Extractor.constant ∧
  Extractor.guessItemType "size: number" = Extractor.property ∧
  Extractor.guessItemType "import { a } from 'b'" = Extractor.import ∧
  Extractor.guessItemType "this.size = 1" = Extractor.unknown.
Proof. split_and!; by vm_compute. Qed.

Example extractIdentifierName_samples :
  Extractor.extractIdentifierName "export async function load() {" Extractor.function = "load" ∧
  Extractor.extractIdentifierName "const f = (a, b) => a" Extractor.function = "f" ∧
  Extractor.extractIdentifierName "export type Id = string" Extractor.class = "Id" ∧
  Extractor.extractIdentifierName "import { a } from 'b/c'" Extractor.import = "b/c" ∧
  Extractor.extractIdentifierName "this.size = 1" Extractor.unknown = "this".
Proof. split_and!; by vm_compute. Qed.

Lemma bind_ext_in {A B} (f g : A → list B) (l : list A) :
  (∀ x, x ∈ l → f x = g x) → l ≫= f = l ≫= g.
Proof.
  induction l as [|x l IH]; intros Hfg; [done|]. simpl.
  rewrite Hfg by left. f_equal. apply IH. intros y Hy. apply Hfg. by right.
Qed.

(** The fuel of a repetition is the length of the rest of the input; any
    larger fuel gives the same result. *)
Lemma iter_star_fuel greedy body n m c :
  String.length (rest c) ≤ n → String.length (rest c) ≤ m →
  iter_star greedy body n c = iter_star greedy body m c.
Proof.
  revert m c. induction n as [|n IH]; intros m c Hn Hm.
  - destruct m as [|m]; [done|]. simpl.
    assert (filter (λ x, progress c x = true) (body c) = []) as ->; [|by destruct greedy].
    apply elem_of_nil_inv. intros x [Hp _]%list_elem_of_filter.
    apply Nat.ltb_lt in Hp. lia.
  - destruct m as [|m]; simpl.
    + assert (filter (λ x, progress c x = true) (body c) = []) as ->; [|by destruct greedy].
      apply elem_of_nil_inv. intros x [Hp _]%list_elem_of_filter.
      apply Nat.ltb_lt in Hp. lia.
    + assert ((filter (λ x, progress c x = true) (body c) ≫= λ x,
                 iter_star greedy body n x.1 ≫= λ y, [(y.1, x.2 ++ y.2)])
              = (filter (λ x, progress c x = true) (body c) ≫= λ x,
                 iter_star greedy body m x.1 ≫= λ y, [(y.1, x.2 ++ y.2)])) as ->; [|done].
      apply bind_ext_in. intros x [Hp _]%list_elem_of_filter.
      apply Nat.ltb_lt in Hp. rewrite (IH m); [done|lia..].
Qed.

Lemma reaches_eps c : reaches Eps c c.
Proof. exists []. simpl. by apply list_elem_of_singleton. Qed.

Lemma reaches_class p n a s :
  p a = true → reaches (Class p) (Cursor n (String a s)) (Cursor (S n) s).
Proof. intros Hp. exists []. simpl. rewrite Hp. by apply list_elem_of_singleton. Qed.

Lemma reaches_seq r1 r2 c c' :
  reaches (Seq r1 r2) c c' ↔ ∃ m, reaches r1 c m ∧ reaches r2 m c'.
Proof.
  unfold reaches. simpl. split.
  - intros (g & (x & (y & Hg & Hy)%list_elem_of_bind & Hx)%list_elem_of_bind).
    apply list_elem_of_singleton in Hg. simplify_eq.
    exists x.1. destruct x, y. eauto.
  - intros (m & (g1 & H1) & (g2 & H2)). exists (g1 ++ g2).
    apply list_elem_of_bind. exists (m, g1). split; [|done].
    apply list_elem_of_bind. exists (c', g2). split; [|done].
    by apply list_elem_of_singleton.
Qed.

Lemma reaches_alt r1 r2 c c' :
  reaches (Alt r1 r2) c c' ↔ reaches r1 c c' ∨ reaches r2 c c'.
Proof.
  unfold reaches. simpl. split.
  - intros (g & [H|H]%elem_of_app); eauto.
  - intros [(g & H)|(g & H)]; exists g; apply elem_of_app; eauto.
Qed.

Lemma reaches_group i r c c' : reaches (Group i r) c c' ↔ reaches r c c'.
Proof.
  unfold reaches. simpl. split.
  - intros (g & (x & Hg & Hx)%list_elem_of_bind).
    apply list_elem_of_singleton in Hg. simplify_eq. destruct x. eauto.
  - intros (g & H). eexists. apply list_elem_of_bind. exists (c', g).
    split; [|done]. by apply list_elem_of_singleton.
Qed.

Lemma reaches_bol s : reaches Bol (Cursor 0 s) (Cursor 0 s).
Proof. exists []. simpl. by apply list_elem_of_singleton. Qed.

Lemma reaches_eol n : reaches Eol (Cursor n EmptyString) (Cursor n EmptyString).
Proof. exists []. simpl. by apply list_elem_of_singleton. Qed.

Lemma reaches_star_refl greedy r c : reaches (Star greedy r) c c.
Proof.
  exists []. simpl. destruct (String.length (rest c)); simpl.
  - by apply list_elem_of_singleton.
  - destruct greedy; [apply elem_of_app; right; by apply list_elem_of_singleton|left].
Qed.

Lemma reaches_star_step greedy r c m c' :
  reaches r c m → String.length (rest m) < String.length (rest c) →
  reaches (Star greedy r) m c' → reaches (Star greedy r) c c'.
Proof.
  intros (g1 & H1) Hlt (g2 & H2). exists (g1 ++ g2). simpl in *.
  destruct (String.length (rest c)) as [|k] eqn:Hk; [lia|]. simpl.
  assert ((c', g1 ++ g2) ∈
    (filter (λ x, progress c x = true) (run r c) ≫= λ x,
       iter_star greedy (run r) k x.1 ≫= λ y, [(y.1, x.2 ++ y.2)])) as Hin.
  { apply list_elem_of_bind. exists (m, g1). split.
    - apply list_elem_of_bind. exists (c', g2). split; [by apply list_elem_of_singleton|].
      simpl. rewrite (iter_star_fuel _ _ k (String.length (rest m))); [done|lia..].
    - apply list_elem_of_filter. split; [|done].
      unfold progress. simpl. apply Nat.ltb_lt. lia. }
  destruct greedy; [apply elem_of_app; by left|by right].
Qed.

Lemma run_nonempty r c : run r c ≠ [] ↔ ∃ c', reaches r c c'.
Proof.
  unfold reaches. split.
  - destruct (run r c) as [|[c' g] l] eqn:Hr; [done|]. intros _.
    exists c', g. left.
  - intros (c' & g & H) Hr. rewrite Hr in H. by apply not_elem_of_nil in H.
Qed.
End matcher_facts.

(** ** Kind classification *)

Section classification.
Import Re Extractor Spec.

Lemma search_mono r r' :
  (∀ c, run r c ≠ [] → run r' c ≠ []) →
  ∀ s p, is_Some (search r p s) → is_Some (search r' p s).
Proof.
  intros Hrr'. induction s as [|a s IH]; intros p; simpl.
  - pose proof (Hrr' (Cursor p EmptyString)) as H.
    destruct (run r (Cursor p EmptyString)); [by intros [? ?]|].
    destruct (run r' (Cursor p EmptyString)); [by destruct H|]. eauto.
  - pose proof (Hrr' (Cursor p (String a s))) as H.
    destruct (run r' (Cursor p (String a s))); [|eauto].
    destruct (run r (Cursor p (String a s))); [|by destruct H].
    apply IH.
Qed.

Lemma test_mono r r' s :
  (∀ c c', reaches r c c' → reaches r' c c') →
  test r s = true → test r' s = true.
Proof.
  intros Hrr'. unfold test, exec.
  pose proof (search_mono r r') as Hm.
  destruct (search r 0 s) eqn:Hs; [|done]. intros _.
  destruct (Hm) with (s := s) (p := 0) as [m' ->]; [|eauto|done].
  intros c (c' & Hc)%run_nonempty. apply run_nonempty. eauto.
Qed.

(** Whatever the type-alias pattern matches, the pattern for classes,
    interfaces and types matches as well. *)
Lemma type_alias_type_bearing c c' :
  reaches type_alias c c' → reaches type_bearing c c'.
Proof.
  unfold type_alias, type_bearing. intros H.
  apply reaches_seq in H as (m1 & H1 & H).
  apply reaches_seq in H as (m2 & H2 & H).
  apply reaches_seq in H as (m3 & H3 & H).
  apply reaches_seq. exists m1. split; [done|].
  apply reaches_seq. exists m2. split; [done|].
  apply reaches_seq. exists m3. split; [|done].
  apply reaches_group, reaches_alt. right. apply reaches_alt. by right.
Qed.

Lemma guessItemType_not_type context_ : guessItemType context_ ≠ type.
Proof.
  unfold guessItemType.
  destruct (test function_like context_); [done|].
  destruct (test type_bearing context_) eqn:Hb; [done|].
  destruct (test variable_decl context_); [done|].
  destruct (test type_alias context_) eqn:Ha.
  - apply (test_mono _ type_bearing) in Ha; [congruence|].
    apply type_alias_type_bearing.
  - destruct (test property_shape context_); [done|].
    by destruct (test import_stmt context_).
Qed.

Lemma scanLine_item filePath lines i line_ item :
  item ∈ scanLine filePath lines i line_ →
  file item = filePath ∧ line item = i + 1 ∧
  item_type item = guessItemType (context item).
Proof.
  unfold scanLine. intros (pattern & Hitem & _)%list_elem_of_bind.
  destruct (exec pattern line_); [|by apply elem_of_nil in Hitem].
  apply list_elem_of_singleton in Hitem. by subst.
Qed.

Lemma findDeprecatedItems_item content filePath item :
  item ∈ findDeprecatedItems content filePath →
  ∃ i line_, Js.split_lines content !! i = Some line_ ∧
             item ∈ scanLine filePath (Js.split_lines content) i line_.
Proof.
  unfold findDeprecatedItems. rewrite list_join_bind.
  intros (l & Hitem & Hl)%list_elem_of_bind.
  apply elem_of_lookup_imap in Hl as (i & line_ & -> & Hi). eauto.
Qed.

Lemma category_not_types item : item_type item ≠ type → category item ≠ "types".
Proof. unfold category. by destruct (item_type item). Qed.

Lemma scanned_types h (apis : Api.registry) filePath :
  Obj.get (scanned h apis filePath) "types" = Obj.get apis "types".
Proof.
  unfold scanned. destruct (readFileSync h filePath) as [content|]; [|done].
  assert (∀ item, item ∈ findDeprecatedItems content (getRelativePath h filePath) →
            category item ≠ "types") as Hitems.
  { intros item (i & line_ & _ & Hitem)%findDeprecatedItems_item.
    apply scanLine_item in Hitem as (_ & _ & Ht).
    apply category_not_types. rewrite Ht. apply guessItemType_not_type. }
  revert apis Hitems.
  induction (findDeprecatedItems content (getRelativePath h filePath))
    as [|item items IH]; intros apis Hitems; [done|]. simpl.
  rewrite IH by (intros ??; apply Hitems; by right).
  apply categorize_get_ne. intros Heq. by apply (Hitems item); [left|].
Qed.

Lemma for_each_invariant {A S} (I : S → Prop) (body : A → S → result S) l s s' :
  (∀ a s s', I s → body a s = Ok s' → I s') →
  I s → for_each body l s = Ok s' → I s'.
Proof.
  intros Hbody. revert s. induction l as [|a l IH]; intros s Hs; simpl.
  - intros. by simplify_eq.
  - destruct (body a s) as [s1|] eqn:Hb; [|done]. simpl.
    apply IH. by apply (Hbody a s).
Qed.

Lemma extract_types h st st' :
  extract h st = Ok st' →
  Obj.get (deprecatedApis st') "types" = Obj.get (deprecatedApis st) "types".
Proof.
  unfold extract.
  destruct (for_each _ FRONTEND_SOURCE_PATHS _) as [st1|] eqn:Hloop; [|done].
  simpl. intros. simplify_eq. simpl.
  revert Hloop.
  apply (for_each_invariant
    (λ s, Obj.get (deprecatedApis s) "types" = Obj.get (deprecatedApis st) "types"));
    [|done].
  intros sourcePath s s' Hs. destruct (existsSync h sourcePath).
  - apply (for_each_invariant
      (λ s, Obj.get (deprecatedApis s) "types" = Obj.get (deprecatedApis st) "types"));
      [|done].
    intros pattern s0 s0' Hs0.
    apply (for_each_invariant
      (λ s, Obj.get (deprecatedApis s) "types" = Obj.get (deprecatedApis st) "types"));
      [|done].
    intros f s1 s1' Hs1 Hscan.
    destruct (scanFile_scanned h f s1) as (s2 & Hs2 & Happ).
    rewrite Hs2 in Hscan. simplify_eq. rewrite Happ, scanned_types. done.
  - intros. by simplify_eq.
Qed.

(** C9: the kind classifier never answers [type]: a context that the
    type-alias pattern matches is matched by the earlier pattern for
    classes, interfaces and types (or by the still earlier one for
    functions); hence no item is ever filed under [types], and the
    category [types] is empty in the registry of every extraction. *)
Theorem types_category_always_empty :
  (∀ context_, test type_alias context_ = true →
               test type_bearing context_ = true) ∧
  (∀ context_, guessItemType context_ ≠ type) ∧
  (∀ h, ∃ st, extract h new_extractor = Ok st ∧
              Obj.get (deprecatedApis st) "types" = Some []).
Proof.
  split_and!.
  - intros context_. apply test_mono, type_alias_type_bearing.
  - apply guessItemType_not_type.
  - intros h. destruct (extract_total h new_extractor) as [st Hst].
    exists st. split; [done|]. by rewrite (extract_types h _ _ Hst).
Qed.
End classification.


(** ** Name extraction *)

Section names.
Import Re Extractor Spec.

Lemma substring_word_prefix s :
  String.substring 0 (String.length (word_prefix s)) s = word_prefix s.
Proof.
  induction s as [|a s IH]; [done|]. simpl.
  destruct (Js.is_word a); [|done]. simpl. by rewrite IH.
Qed.

(** A greedy repetition of [\w] first tries the longest run of word
    characters. *)
Lemma star_word_head s p :
  ∃ s' tl, run (Star true word) (Cursor p s)
           = (Cursor (p + String.length (word_prefix s)) s', []) :: tl.
Proof.
  revert p. induction s as [|a s IH]; intros p.
  - exists EmptyString, []. simpl. by rewrite Nat.add_0_r.
  - simpl. destruct (Js.is_word a) eqn:Ha; simpl.
    + rewrite (filter_singleton_True _ _ [])
        by (unfold progress; simpl; apply Nat.ltb_lt; lia).
      rewrite bind_singleton.
      destruct (IH (S p)) as (s' & tl & Hrun). simpl in Hrun.
      cbn [fst snd]. rewrite Hrun.
      simpl. rewrite Nat.add_succ_r. eauto.
    + rewrite Nat.add_0_r. eauto.
Qed.

Lemma run_first_word_word a s p :
  Js.is_word a = true →
  ∃ c' tl, run first_word_pattern (Cursor p (String a s))
           = (c', [(1, String a (word_prefix s))]) :: tl ∧
           consumed (Cursor p (String a s)) c' = String a (word_prefix s).
Proof.
  intros Ha. unfold first_word_pattern, plus.
  destruct (star_word_head s (S p)) as (s' & tl & Hrun).
  assert (consumed (Cursor p (String a s))
            (Cursor (S p + String.length (word_prefix s)) s')
          = String a (word_prefix s)) as Hc.
  { unfold consumed. simpl.
    replace (S (p + String.length (word_prefix s)) - p)
      with (S (String.length (word_prefix s))) by lia.
    simpl. by rewrite substring_word_prefix. }
  exists (Cursor (S p + String.length (word_prefix s)) s'). eexists.
  split; [|exact Hc].
  cbn [run]. change (run word (Cursor p (String a s)))
    with (if Js.is_word a then [(Cursor (S p) s, @nil (nat * string))] else []).
  rewrite Ha. rewrite !bind_singleton. cbn [fst snd].
  change (iter_star true (run word) _ (Cursor (S p) s))
    with (run (Star true word) (Cursor (S p) s)).
  rewrite Hrun. rewrite bind_cons. cbn [fst snd app].
  rewrite bind_cons. cbn [fst snd app]. rewrite Hc. reflexivity.
Qed.

Lemma run_first_word_other a s p :
  Js.is_word a = false → run first_word_pattern (Cursor p (String a s)) = [].
Proof. intros Ha. simpl. by rewrite Ha. Qed.

Lemma search_first_word_none s p :
  first_word s = EmptyString → search first_word_pattern p s = None.
Proof.
  revert p. induction s as [|a s IH]; intros p; [done|].
  cbn [search first_word]. destruct (Js.is_word a) eqn:Ha; [done|].
  intros Hw. rewrite run_first_word_other by done. by apply IH.
Qed.

Lemma search_first_word_some s p :
  first_word s ≠ EmptyString →
  ∃ i, search first_word_pattern p s
       = Some (Match i (first_word s) [(1, first_word s)]).
Proof.
  revert p. induction s as [|a s IH]; intros p; [done|].
  cbn [search first_word]. destruct (Js.is_word a) eqn:Ha.
  - intros _. destruct (run_first_word_word a s p Ha) as (c' & tl & -> & Hc).
    exists p. cbn [fst snd]. by rewrite Hc.
  - intros Hw. rewrite run_first_word_other by done. by apply IH.
Qed.

Lemma find_group_truthy index arr s :
  find_group index arr = Some s → Js.truthy s = true.
Proof.
  revert index. induction arr as [|group arr IH]; intros index; [done|].
  simpl. destruct ((0 <? index) && truthy_group group) eqn:Hc; [|apply IH].
  intros ->. by apply andb_true_iff in Hc as [_ Hc].
Qed.

Lemma extractIdentifierName_unknown context_ :
  extractIdentifierName context_ unknown
  = if Js.truthy (first_word context_) then first_word context_ else "unknown".
Proof.
  unfold extractIdentifierName, exec. cbn [patterns default].
  destruct (Js.truthy (first_word context_)) eqn:Hw.
  - destruct (search_first_word_some context_ 0) as (i & ->).
    { intros Heq. by rewrite Heq in Hw. }
    unfold match_array. simpl. by rewrite Hw.
  - rewrite search_first_word_none; [done|].
    by destruct (first_word context_).
Qed.

(** C5, as stated, fails: the context [class $Widget {}] is classified as
    a class, the pattern for classes does not match it (a name must start
    with a word character), and the name is [unknown]; the first-word
    pattern, which would have given [class], is not tried. *)
Lemma no_fallback_after_failed_pattern :
  guessItemType "class $Widget {}" = class ∧
  from_option (λ pattern, exec pattern "class $Widget {}") None (patterns class) = None ∧
  extractIdentifierName "class $Widget {}" class = "unknown" ∧
  name_with_fallback "class $Widget {}" class = "class" ∧
  extractIdentifierName "class $Widget {}" class
  ≠ name_with_fallback "class $Widget {}" class.
Proof. split_and!; [by vm_compute..|]. vm_compute. discriminate. Qed.

End names.


(** ** Annotation patterns *)

Section annotations.
Import Re Extractor Spec.

Lemma reaches_lit pre s n :
  reaches (lit pre) (Cursor n (pre +:+ s)) (Cursor (n + String.length pre) s).
Proof.
  revert n. induction pre as [|a pre IH]; intros n.
  - simpl. rewrite Nat.add_0_r. apply reaches_eps.
  - change (String a pre +:+ s) with (String a (pre +:+ s)). simpl.
    apply reaches_seq. exists (Cursor (S n) (pre +:+ s)). split.
    + apply reaches_class. by apply bool_decide_eq_true.
    + rewrite Nat.add_succ_r. apply (IH (S n)).
Qed.

Lemma reaches_lit_i pre s n :
  reaches (lit_i pre) (Cursor n (pre +:+ s)) (Cursor (n + String.length pre) s).
Proof.
  revert n. induction pre as [|a pre IH]; intros n.
  - simpl. rewrite Nat.add_0_r. apply reaches_eps.
  - change (String a pre +:+ s) with (String a (pre +:+ s)). simpl.
    apply reaches_seq. exists (Cursor (S n) (pre +:+ s)). split.
    + apply reaches_class. by apply bool_decide_eq_true.
    + rewrite Nat.add_succ_r. apply (IH (S n)).
Qed.

(** A repetition of a character class can take any run of characters of
    the class. *)
Lemma reaches_star_class greedy p pre s n :
  Js.all_chars p pre = true →
  reaches (Star greedy (Class p)) (Cursor n (pre +:+ s))
    (Cursor (n + String.length pre) s).
Proof.
  revert n. induction pre as [|a pre IH]; intros n Hall.
  - simpl. rewrite Nat.add_0_r. apply reaches_star_refl.
  - change (String a pre +:+ s) with (String a (pre +:+ s)).
    simpl in Hall. apply andb_true_iff in Hall as [Ha Hall].
    apply (reaches_star_step _ _ _ (Cursor (S n) (pre +:+ s))).
    + by apply reaches_class.
    + simpl. lia.
    + simpl. rewrite Nat.add_succ_r. by apply (IH (S n)).
Qed.

Lemma append_empty_r s : s +:+ EmptyString = s.
Proof.
  induction s as [|a s IH]; [done|].
  change (String a s +:+ EmptyString) with (String a (s +:+ EmptyString)).
  by rewrite IH.
Qed.

Lemma reaches_star_class_all greedy p s n :
  Js.all_chars p s = true →
  reaches (Star greedy (Class p)) (Cursor n s)
    (Cursor (n + String.length s) EmptyString).
Proof.
  intros Hall. rewrite <-(append_empty_r s) at 1.
  by apply reaches_star_class.
Qed.

(** A match further to the right is found unless an earlier one is. *)
Lemma search_found r pre s p c' :
  reaches r (Cursor (p + String.length pre) s) c' →
  is_Some (search r p (pre +:+ s)).
Proof.
  revert p. induction pre as [|a pre IH]; intros p Hr.
  - simpl in Hr. rewrite Nat.add_0_r in Hr.
    change (EmptyString +:+ s) with s.
    assert (run r (Cursor p s) ≠ []) as Hne by (apply run_nonempty; eauto).
    destruct s; simpl; destruct (run r _); by eauto.
  - change (String a pre +:+ s) with (String a (pre +:+ s)). simpl.
    destruct (run r _); [|eauto].
    apply IH. simpl in Hr. by rewrite Nat.add_succ_r in Hr.
Qed.

Lemma line_comment_matches text :
  text ≠ EmptyString → single_line text = true →
  is_Some (exec line_comment ("// @deprecated " +:+ text)).
Proof.
  intros Hne Hsl. destruct text as [|a t]; [done|].
  unfold single_line in Hsl. simpl in Hsl.
  apply andb_true_iff in Hsl as [Ha Ht].
  set (t3 := String " " (String a t)).
  set (t2 := "@deprecated" +:+ t3).
  set (t1 := " " +:+ t2).
  unfold exec.
  apply (search_found _ EmptyString ("//" +:+ t1) 0
           (Cursor (0 + 0 + 2 + 1 + 11 + 1 + 1 + String.length t) EmptyString)).
  unfold line_comment.
  apply reaches_seq. eexists. split; [apply (reaches_lit "//" t1)|].
  apply reaches_seq. eexists. split; [by apply (reaches_star_class true _ " " t2)|].
  apply reaches_seq. eexists. split; [apply (reaches_lit_i "@deprecated" t3)|].
  apply reaches_seq. eexists. split.
  { apply reaches_seq. eexists. split; [by apply reaches_class|].
    apply reaches_star_refl. }
  apply reaches_group, reaches_seq. eexists. split; [by apply reaches_class|].
  by apply (reaches_star_class_all true _ t).
Qed.

Lemma leading_marker_matches text :
  text ≠ EmptyString → single_line text = true →
  is_Some (exec leading_marker ("// @deprecated " +:+ text)).
Proof.
  intros Hne Hsl. destruct text as [|a t]; [done|].
  unfold single_line in Hsl. simpl in Hsl.
  apply andb_true_iff in Hsl as [Ha Ht].
  set (t3 := String " " (String a t)).
  unfold exec.
  apply (search_found _ "// " ("@deprecated" +:+ t3) 0
           (Cursor (0 + 3 + 11 + 1 + 1 + String.length t) EmptyString)).
  unfold leading_marker.
  apply reaches_seq. eexists. split; [apply (reaches_lit_i "@deprecated" t3)|].
  apply reaches_seq. eexists. split.
  { apply reaches_seq. eexists. split; [by apply reaches_class|].
    apply reaches_star_refl. }
  apply reaches_seq. eexists. split.
  { apply reaches_group, reaches_seq. eexists. split; [by apply reaches_class|].
    by apply (reaches_star_class_all false _ t). }
  apply reaches_alt. right. apply reaches_alt. left. apply reaches_eol.
Qed.

Lemma filter_all {A} (P : A → Prop) `{!∀ x, Decision (P x)} (l : list A) :
  (∀ x, x ∈ l → P x) → filter P l = l.
Proof.
  induction l as [|x l IH]; intros HP; [done|].
  rewrite filter_cons_True by (apply HP; left).
  f_equal. apply IH. intros y Hy. apply HP. by right.
Qed.

Lemma filter_none {A} (P : A → Prop) `{!∀ x, Decision (P x)} (l : list A) :
  (∀ x, x ∈ l → ¬ P x) → filter P l = [].
Proof.
  intros HP. apply elem_of_nil_inv. intros x [Hx Hin]%list_elem_of_filter.
  by apply (HP x).
Qed.

(** The items of one line among those of a file, told by their line
    number. *)
Lemma filter_join_imap (f : nat → string → list Item) ls i l k :
  (∀ j x item, item ∈ f j x → line item = j + k) →
  ls !! i = Some l →
  filter (λ item, line item = i + k) (mjoin (imap f ls)) = f i l.
Proof.
  revert f i k. induction ls as [|x ls IH]; intros f i k Hf Hl; [done|].
  rewrite imap_cons. simpl. rewrite filter_app. destruct i as [|i].
  - simpl in Hl. simplify_eq.
    rewrite filter_all by (intros item Hitem; by apply Hf in Hitem).
    rewrite filter_none; [by rewrite app_nil_r|].
    intros item (l' & Hitem & Hl')%list_elem_of_join.
    apply elem_of_lookup_imap in Hl' as (j & y & -> & _).
    apply Hf in Hitem. lia.
  - simpl in Hl.
    rewrite filter_none by (intros item Hitem; apply Hf in Hitem; lia).
    simpl. change (f (S i) l) with ((f ∘ S) i l).
    rewrite <-(IH (f ∘ S) i (S k));
      [|intros j y item Hitem; apply Hf in Hitem; lia|done].
    apply list_filter_iff. intros item. lia.
Qed.

Lemma items_of_line_scanLine content filePath i line_ :
  Js.split_lines content !! i = Some line_ →
  items_of_line (i + 1) (findDeprecatedItems content filePath)
  = scanLine filePath (Js.split_lines content) i line_.
Proof.
  intros Hl. unfold items_of_line, findDeprecatedItems.
  apply (filter_join_imap (scanLine filePath (Js.split_lines content))); [|done].
  intros j x item Hitem. by apply scanLine_item in Hitem as (_ & ? & _).
Qed.

End annotations.

(** * Further properties of the matcher *)

Section index.
Import Api Matcher Spec.

Lemma lower_idempotent a : Js.lower (Js.lower a) = Js.lower a.
Proof. by destruct a as [[] [] [] [] [] [] [] []]. Qed.

Lemma toLowerCase_idempotent s :
  Js.toLowerCase (Js.toLowerCase s) = Js.toLowerCase s.
Proof.
  induction s as [|a s IH]; [done|]. simpl. by rewrite lower_idempotent, IH.
Qed.

Lemma flatten_elem (data : registry) item category :
  (item, category) ∈ flatten data ↔
  ∃ items, (category, items) ∈ Obj.entries data ∧ item ∈ items.
Proof.
  unfold flatten, Obj.entries. rewrite list_elem_of_bind. split.
  - intros ([category' items] & Hin & Hdata).
    apply list_elem_of_fmap in Hin as (item' & Heq & Hitem). simplify_eq. eauto.
  - intros (items & Hdata & Hitem). exists (category, items). split; [|done].
    apply list_elem_of_fmap. eauto.
Qed.

Lemma index_of_Some l key es :
  index_of l key = Some es → es = named key l ∧ es ≠ [].
Proof.
  unfold index_of. destruct (named key l) eqn:Hn; intros; by simplify_eq.
Qed.

(** X1: the lookup map is the registry regrouped by lower-cased name.
    Every record of every category is listed under the lower-casing of its
    name; a key of the map is in lower case and holds, in registry order
    and without omission or repetition, exactly the records with that
    lower-cased name, each with its category; no key holds an empty
    list. *)
Theorem index_is_registry_by_lowercase_name (data : registry) :
  (∀ category items item,
     (category, items) ∈ Obj.entries data → item ∈ items →
     ∃ l, deprecatedLookup data !! Js.toLowerCase (name item) = Some l ∧
          (item, category) ∈ l) ∧
  (∀ key l,
     deprecatedLookup data !! key = Some l →
     l ≠ [] ∧ Js.toLowerCase key = key ∧
     l = named key (flatten data) ∧ l `sublist_of` flatten data ∧
     ∀ item category,
       (item, category) ∈ l ↔
       Js.toLowerCase (name item) = key ∧
       ∃ items, (category, items) ∈ Obj.entries data ∧ item ∈ items).
Proof.
  split.
  - intros category items item Hdata Hitem.
    assert ((item, category) ∈ named (Js.toLowerCase (name item)) (flatten data))
      as Hin.
    { apply list_elem_of_filter. split; [done|]. apply flatten_elem. eauto. }
    rewrite deprecatedLookup_spec. unfold index_of.
    destruct (named _ (flatten data)) as [|e es] eqn:Hn; [by apply elem_of_nil in Hin|].
    eauto.
  - intros key l Hl. rewrite deprecatedLookup_spec in Hl.
    apply index_of_Some in Hl as [-> Hne]. split_and!; [done| |done| |].
    + destruct (named key (flatten data)) as [|e es] eqn:Hn; [done|].
      assert (e ∈ named key (flatten data)) as He by (rewrite Hn; left).
      apply list_elem_of_filter in He as [<- _]. apply toLowerCase_idempotent.
    + apply sublist_filter.
    + intros item category. unfold named. rewrite list_elem_of_filter.
      by rewrite flatten_elem.
Qed.
End index.

Section reports.
Import Api Matcher Spec.
Context (E : engine) (data : registry).

Lemma visit_cases options n :
  visit E data options n
  = match occurrence n with
    | Some id => checkIdentifier E data options id (Ast.name id)
    | None => []
    end.
Proof. by destruct n as [[|? []|]|? []|[]|[]|[]|[]| | | |[]|[]|]. Qed.

Lemma checkIdentifier_inv options id name_ r :
  r ∈ checkIdentifier E data options id name_ →
  (name_ ∉ builtIns) ∧ isIgnored E options name_ = false ∧
  ∃ first others,
    deprecatedLookup data !! Js.toLowerCase name_ = Some (first :: others) ∧
    reportDeprecated E options id name_ first = [r].
Proof.
  unfold checkIdentifier. case_bool_decide as Hb; [by intros ?%elem_of_nil|].
  destruct (deprecatedLookup data !! Js.toLowerCase name_) as [[|first others]|]
    eqn:Hl; try by intros ?%elem_of_nil.
  intros Hr. split; [done|].
  destruct (isIgnored E options name_) eqn:Hi.
  { unfold reportDeprecated in Hr. rewrite Hi in Hr. by apply elem_of_nil in Hr. }
  split; [done|]. exists first, others. split; [done|].
  unfold reportDeprecated in *. rewrite Hi in *.
  apply list_elem_of_singleton in Hr. by subst.
Qed.

Lemma checkIdentifier_length options id name_ :
  List.length (checkIdentifier E data options id name_) ≤ 1.
Proof.
  unfold checkIdentifier. case_bool_decide; [simpl; lia|].
  destruct (deprecatedLookup data !! _) as [[|first others]|]; simpl; try lia.
  unfold reportDeprecated. destruct (isIgnored E options name_); simpl; lia.
Qed.

(** X2: a listener reports at most once per node, so a file with [n]
    nodes yields at most [n] reports. *)
Theorem at_most_one_report_per_node options :
  (∀ n, List.length (visit E data options n) ≤ 1) ∧
  (∀ nodes, List.length (lint E data options nodes) ≤ List.length nodes).
Proof.
  assert (∀ n, List.length (visit E data options n) ≤ 1) as Hv.
  { intros n. rewrite visit_cases. destruct (occurrence n); [|simpl; lia].
    apply checkIdentifier_length. }
  split; [done|]. intros nodes. unfold lint.
  induction nodes as [|n nodes IH]; [done|].
  rewrite bind_cons, length_app. simpl. specialize (Hv n). lia.
Qed.

(** X3: every report is justified.  A report of a file comes from a node
    that denotes the use of an identifier; it is placed at that identifier
    and names it as written; the identifier is no built-in and matches no
    ignore pattern; its lower-cased name is a key of the index, and the
    file, the line, the reason and the message template of the report are
    those of the first record under that key: the template with context
    when [showContext] holds and the record has a file, else the one with
    the reason when the record has one, else the generic one. *)
Theorem report_is_justified options nodes r :
  r ∈ lint E data options nodes →
  ∃ n first others,
    n ∈ nodes ∧ occurrence n = Some (node r) ∧
    data_name r = Ast.name (node r) ∧
    (Ast.name (node r) ∉ builtIns) ∧
    isIgnored E options (Ast.name (node r)) = false ∧
    deprecatedLookup data !! Js.toLowerCase (Ast.name (node r))
      = Some (first :: others) ∧
    data_file r = file first.1 ∧ data_line r = pretty (line first.1) ∧
    data_reason r
      = (if bool_decide (reason first.1 = "No reason provided")
         then "Check ComfyUI documentation for alternatives."
         else "Reason: " +:+ reason first.1) ∧
    messageId r
      = (if showContext_ options && Js.truthy (file first.1)
         then deprecatedApiWithContext
         else if bool_decide (reason first.1 = "No reason provided")
              then deprecatedApiGeneric else deprecatedApi).
Proof.
  unfold lint. intros (n & Hr & Hn)%list_elem_of_bind.
  rewrite visit_cases in Hr.
  destruct (occurrence n) as [id|] eqn:Hocc; [|by apply elem_of_nil in Hr].
  apply checkIdentifier_inv in Hr as (Hb & Hi & first & others & Hl & Hr).
  unfold reportDeprecated in Hr. rewrite Hi in Hr. simplify_eq. simpl.
  exists n, first, others. split_and!; try done.
  - by case_bool_decide.
  - destruct (showContext_ options && Js.truthy (file first.1)); [done|].
    by case_bool_decide.
Qed.


Lemma lint_nil options nodes :
  (∀ n, n ∈ nodes → visit E data options n = []) →
  lint E data options nodes = [].
Proof.
  unfold lint. induction nodes as [|n nodes IH]; intros Hv; [done|].
  rewrite bind_cons, Hv by left. simpl. apply IH. intros n' Hn'. apply Hv. by right.
Qed.

(** X4: a file none of whose identifiers has, in lower case, the
    lower-cased name of a registry record yields no report, whatever the
    options. *)
Theorem no_overlap_no_report options nodes :
  (∀ n id category items item,
     n ∈ nodes → occurrence n = Some id →
     (category, items) ∈ Obj.entries data → item ∈ items →
     Js.toLowerCase (name item) ≠ Js.toLowerCase (Ast.name id)) →
  lint E data options nodes = [].
Proof.
  intros Hno. apply lint_nil. intros n Hn. rewrite visit_cases.
  destruct (occurrence n) as [id|] eqn:Hocc; [|done].
  unfold checkIdentifier. case_bool_decide; [done|].
  rewrite deprecatedLookup_spec. unfold index_of, named.
  rewrite (filter_none _ (flatten data)); [done|].
  intros [item category] (items & Hdata & Hitem)%flatten_elem. simpl.
  by apply (Hno n id category items item).
Qed.

(** X5: [showContext] chooses the message template and nothing else: the
    same nodes are reported, with the same name, reason, file and line,
    whatever its value; and when it is [false] no report uses the template
    with context. *)
Theorem showContext_changes_template_only options show show' nodes :
  let content (r : Report) :=
    (node r, data_name r, data_reason r, data_file r, data_line r) in
  content <$> lint E data (with_showContext options show) nodes
  = content <$> lint E data (with_showContext options show') nodes ∧
  (∀ r, r ∈ lint E data (with_showContext options (Some false)) nodes →
        messageId r ≠ deprecatedApiWithContext).
Proof.
  intros content. split.
  - unfold lint. induction nodes as [|n nodes IH]; [done|].
    rewrite !bind_cons, !fmap_app, IH. f_equal.
    rewrite !visit_cases. destruct (occurrence n) as [id|]; [|done].
    unfold checkIdentifier. case_bool_decide; [done|].
    destruct (deprecatedLookup data !! _) as [[|first others]|]; try done.
    unfold reportDeprecated.
    change (isIgnored E (with_showContext options show') (Ast.name id))
      with (isIgnored E (with_showContext options show) (Ast.name id)).
    by destruct (isIgnored E _ (Ast.name id)).
  - unfold lint. intros r (n & Hr & _)%list_elem_of_bind.
    rewrite visit_cases in Hr.
    destruct (occurrence n) as [id|]; [|by apply elem_of_nil in Hr].
    apply checkIdentifier_inv in Hr as (_ & Hi & first & others & _ & Hr).
    unfold reportDeprecated in Hr. rewrite Hi in Hr. simplify_eq. simpl.
    by case_bool_decide.
Qed.

(** X6: an ignore pattern only removes reports: with more patterns, the
    reports of a file are a sublist (same reports, same order, some left
    out) of the reports with fewer. *)
Theorem more_ignore_patterns_fewer_reports options patterns more nodes :
  lint E data (with_ignorePatterns options (patterns ++ more)) nodes
  `sublist_of` lint E data (with_ignorePatterns options patterns) nodes.
Proof.
  unfold lint. induction nodes as [|n nodes IH]; [done|].
  rewrite !bind_cons. apply sublist_app; [|done].
  rewrite !visit_cases. destruct (occurrence n) as [id|]; [|done].
  unfold checkIdentifier. case_bool_decide; [done|].
  destruct (deprecatedLookup data !! _) as [[|first others]|]; try done.
  unfold reportDeprecated, isIgnored, ignorePatterns_. simpl.
  rewrite existsb_app.
  destruct (existsb (ignores E (Ast.name id)) patterns); [done|]. simpl.
  destruct (existsb (ignores E (Ast.name id)) more); [apply sublist_nil_l|done].
Qed.
End reports.

Section reports_examples.
Import Api Matcher Spec.

Lemma no_overlap_no_report_witness :
  lint sample_engine sample_registry (options_with error [])
    [call 3 "refresh"; call 5 "onNodeExecuted";
     Ast.MemberExpression (Ast.OtherE "ThisExpression") (Ast.OtherE "Literal")]
  = [].
Proof.
  apply no_overlap_no_report.
  intros n id category items item Hn Hocc Hdata Hitem.
  unfold sample_registry, Obj.entries in Hdata.
  set_unfold in Hdata. set_unfold in Hn.
  destruct Hdata as [?|[?|[?|[]]]]; simplify_eq; set_unfold in Hitem;
    [|done..]. destruct Hitem as [->|[]].
  destruct Hn as [->|[->|[->|[]]]]; simpl in Hocc; simplify_eq;
    vm_compute; discriminate.
Defined.

Lemma report_is_justified_witness :
  let options := options_with Matcher.warn [] in
  let nodes := [call 1 "JSON"; call 7 "Serialise"] in
  let r := {| Matcher.node := {| Ast.loc := 7; Ast.name := "Serialise" |};
              Matcher.messageId := Matcher.deprecatedApiWithContext;
              Matcher.data_name := "Serialise";
              Matcher.data_reason := "Reason: Use JSON.stringify instead";
              Matcher.data_file := "utils/vintageClipboard.ts";
              Matcher.data_line := "12" |} in
  r ∈ Matcher.lint sample_engine sample_registry options nodes ∧
  ∃ n first others,
    n ∈ nodes ∧ occurrence n = Some (Matcher.node r) ∧
    Matcher.deprecatedLookup sample_registry !! Js.toLowerCase "Serialise"
      = Some (first :: others) ∧
    Matcher.data_file r = Api.file first.1.
Proof.
  intros options nodes r.
  assert (r ∈ Matcher.lint sample_engine sample_registry options nodes) as Hin
    by (vm_compute; left).
  split; [done|].
  destruct (report_is_justified sample_engine sample_registry options nodes r Hin)
    as (n & first & others & Hn & Hocc & _ & _ & _ & Hl & Hfile & _).
  eauto 10.
Defined.
End reports_examples.

(** * Further properties of the extractor *)

Section registry_content.
Import Api Extractor Spec.

Lemma get_Some_elem {V} (o : Obj.object V) k v :
  Obj.get o k = Some v → (k, v) ∈ Obj.entries o.
Proof.
  unfold Obj.entries. induction o as [|[k' v'] o IH]; simpl; [done|].
  case_decide; intros; simplify_eq; [left|right; auto].
Qed.

Lemma categorize_all_get items (apis : registry) k :
  default [] (Obj.get (foldl (λ apis item, categorizeDeprecatedItem item apis) apis items) k)
  = default [] (Obj.get apis k)
    ++ (record_of <$> filter (λ item, category item = k) items).
Proof.
  revert apis. induction items as [|item items IH]; intros apis; simpl.
  - by rewrite app_nil_r.
  - rewrite IH, filter_cons. case_decide as Hk.
    + subst k. rewrite categorize_get_eq. simpl. by rewrite <-app_assoc.
    + by rewrite categorize_get_ne.
Qed.

Lemma categorize_all_get_ne items (apis : registry) k :
  (∀ item, item ∈ items → category item ≠ k) →
  Obj.get (foldl (λ apis item, categorizeDeprecatedItem item apis) apis items) k
  = Obj.get apis k.
Proof.
  revert apis. induction items as [|item items IH]; intros apis Hk; [done|].
  simpl. rewrite IH by (intros ??; apply Hk; by right).
  apply categorize_get_ne. intros ->. by apply (Hk item); [left|].
Qed.

Lemma categorize_all_keeps_keys items (apis : registry) k :
  is_Some (Obj.get apis k) →
  is_Some (Obj.get (foldl (λ apis item, categorizeDeprecatedItem item apis) apis items) k).
Proof.
  revert apis. induction items as [|item items IH]; intros apis Hk; [done|].
  simpl. apply IH. destruct (decide (k = category item)) as [->|Hne].
  - rewrite categorize_get_eq. eauto.
  - by rewrite categorize_get_ne.
Qed.

(** X7: aggregation is additive and keeps the order.  After a list of
    items is categorised, the records under each key are the records that
    were there, followed by the records of the items of that category, in
    the order of the items; nothing is removed, merged or reordered, and no
    key disappears. *)
Theorem records_are_appended_in_order items (apis : registry) :
  let apis' := foldl (λ apis item, categorizeDeprecatedItem item apis) apis items in
  (∀ k, default [] (Obj.get apis' k)
        = default [] (Obj.get apis k)
          ++ (record_of <$> filter (λ item, category item = k) items)) ∧
  (∀ k, is_Some (Obj.get apis k) → is_Some (Obj.get apis' k)) ∧
  getTotalCount apis' = getTotalCount apis + List.length items.
Proof.
  split_and!.
  - apply categorize_all_get.
  - apply categorize_all_keeps_keys.
  - apply categorize_all_total.
Qed.

Lemma lookup_complete (data : registry) e :
  e ∈ flatten data →
  ∃ l, Matcher.deprecatedLookup data !! Js.toLowerCase (name e.1) = Some l ∧ e ∈ l.
Proof.
  intros He.
  assert (e ∈ named (Js.toLowerCase (name e.1)) (flatten data)) as Hin
    by (by apply list_elem_of_filter).
  rewrite deprecatedLookup_spec. unfold index_of.
  destruct (named _ (flatten data)) as [|e' es]; [by apply elem_of_nil in Hin|].
  eauto.
Qed.

Lemma categorized_in_flatten items (apis : registry) item :
  item ∈ items →
  (record_of item, category item)
  ∈ flatten (foldl (λ apis item, categorizeDeprecatedItem item apis) apis items).
Proof.
  intros Hitem.
  pose proof (categorize_all_get items apis (category item)) as Hget.
  destruct (Obj.get (foldl _ apis items) (category item)) as [l|] eqn:Hl; simpl in Hget.
  - apply flatten_elem. exists l. split; [by apply get_Some_elem|].
    rewrite Hget. apply elem_of_app. right.
    apply list_elem_of_fmap_2, list_elem_of_filter. done.
  - symmetry in Hget. apply app_eq_nil in Hget as [_ Hget].
    apply fmap_nil_inv in Hget.
    assert (item ∈ filter (λ item0, category item0 = category item) items) as Hin
      by (by apply list_elem_of_filter).
    rewrite Hget in Hin. by apply elem_of_nil in Hin.
Qed.

(** X8: what the extractor files, the matcher finds.  After a list of
    items is categorised, the index built from the registry lists the
    record of each item under the lower-casing of its extracted name; and a
    use of an identifier with that name, in any case, that is no built-in
    and is not ignored, is reported once. *)
Theorem categorized_item_is_reported E options items (apis : registry) item id :
  item ∈ items →
  Js.toLowerCase (Ast.name id) = Js.toLowerCase (name (record_of item)) →
  Ast.name id ∉ Matcher.builtIns →
  Matcher.isIgnored E options (Ast.name id) = false →
  let apis' := foldl (λ apis item, categorizeDeprecatedItem item apis) apis items in
  (∃ l, Matcher.deprecatedLookup apis' !! Js.toLowerCase (name (record_of item)) = Some l ∧
        (record_of item, category item) ∈ l) ∧
  List.length (Matcher.checkIdentifier E apis' options id (Ast.name id)) = 1.
Proof.
  intros Hitem Hname Hb Hi apis'.
  destruct (lookup_complete apis' (record_of item, category item))
    as (l & Hl & Hin); [by apply categorized_in_flatten|].
  destruct l as [|first others]; [by apply elem_of_nil in Hin|].
  cbn [fst] in Hl. split; [eauto|]. rewrite <-Hname in Hl.
  rewrite (checkIdentifier_hit E apis' options id _ first others Hb Hl).
  by destruct (reportDeprecated_kept E options id (Ast.name id) first Hi)
    as (r & -> & _).
Qed.
End registry_content.

Section registry_examples.
Import Api Extractor Spec.

Lemma categorized_item_is_reported_witness :
  let apis' := foldl (λ apis item, categorizeDeprecatedItem item apis)
                 (deprecatedApis new_extractor) [grow_item] in
  let id := {| Ast.loc := 2; Ast.name := "Grow" |} in
  (∃ l, Matcher.deprecatedLookup apis' !! Js.toLowerCase (name (record_of grow_item)) = Some l ∧
        (record_of grow_item, category grow_item) ∈ l) ∧
  List.length (Matcher.checkIdentifier sample_engine apis' (options_with Matcher.warn ["old"])
                 id "Grow") = 1.
Proof.
  apply (categorized_item_is_reported sample_engine (options_with Matcher.warn ["old"])
           [grow_item] (deprecatedApis new_extractor) grow_item
           {| Ast.loc := 2; Ast.name := "Grow" |}).
  - left.
  - by vm_compute.
  - by_compute.
  - by vm_compute.
Defined.
End registry_examples.

(** ** The extraction as a whole *)

Section extraction.
Import Api Extractor Spec.
Context (h : host).

Lemma for_each_fold {A S R} (proj : S → R) (g : R → A → R)
    (body : A → S → result S) l s :
  (∀ a s, ∃ s', body a s = Ok s' ∧ proj s' = g (proj s) a) →
  ∃ s', for_each body l s = Ok s' ∧ proj s' = foldl g (proj s) l.
Proof.
  intros Hbody. revert s. induction l as [|a l IH]; intros s; simpl; [eauto|].
  destruct (Hbody a s) as (s1 & -> & Hs1). simpl.
  destruct (IH s1) as (s' & -> & Hs'). rewrite Hs1 in Hs'. eauto.
Qed.

Lemma foldl_bind {A B R} (g : R → B → R) (f : A → list B) (l : list A) (r : R) :
  foldl g r (l ≫= f) = foldl (λ r a, foldl g r (f a)) r l.
Proof.
  revert r. induction l as [|a l IH]; intros r; [done|].
  rewrite bind_cons, foldl_app. simpl. apply IH.
Qed.

Lemma foldl_ext {A B} (f g : A → B → A) (l : list B) (a : A) :
  (∀ a b, f a b = g a b) → foldl f a l = foldl g a l.
Proof.
  intros Hfg. revert a. induction l as [|b l IH]; intros a; [done|].
  simpl. by rewrite Hfg, IH.
Qed.

Lemma scanned_items (apis : registry) filePath :
  scanned h apis filePath
  = foldl (λ apis item, categorizeDeprecatedItem item apis) apis
      (items_of_file h filePath).
Proof. unfold scanned, items_of_file. by destruct (readFileSync h filePath). Qed.

Lemma scanDirectory_files dirPath st :
  ∃ st', scanDirectory h dirPath st = Ok st' ∧
         deprecatedApis st'
         = foldl (scanned h) (deprecatedApis st)
             (pattern ← FILE_PATTERNS; glob_sync h dirPath pattern).
Proof.
  rewrite foldl_bind. unfold scanDirectory.
  apply (for_each_fold deprecatedApis
           (λ apis pattern, foldl (scanned h) apis (glob_sync h dirPath pattern))).
  intros pattern s. apply scan_files_scanned.
Qed.

Lemma extract_files st :
  ∃ st', extract h st = Ok st' ∧
         deprecatedApis st' = foldl (scanned h) (deprecatedApis st) (all_files h) ∧
         last (console st')
         = Some (log_found (getTotalCount (deprecatedApis st'))).
Proof.
  unfold extract, all_files. rewrite foldl_bind.
  destruct (for_each_fold deprecatedApis
    (λ apis sourcePath,
       foldl (scanned h) apis
         (if existsSync h sourcePath
          then pattern ← FILE_PATTERNS; glob_sync h sourcePath pattern else []))
    (λ sourcePath st,
       if existsSync h sourcePath then
         scanDirectory h sourcePath (write (log_scanning sourcePath) st)
       else Ok (write (warn_not_found sourcePath) st))
    FRONTEND_SOURCE_PATHS (write log_extracting st)) as (st' & Hst' & Hapis).
  - intros sourcePath s. destruct (existsSync h sourcePath); [|eauto].
    apply (scanDirectory_files sourcePath (write (log_scanning sourcePath) s)).
  - rewrite Hst'. simpl. eexists. split_and!; [done|done|].
    simpl. by rewrite last_snoc.
Qed.

Lemma extract_items st :
  ∃ st', extract h st = Ok st' ∧
    deprecatedApis st'
    = foldl (λ apis item, categorizeDeprecatedItem item apis)
        (deprecatedApis st) (all_items h) ∧
    last (console st') = Some (log_found (getTotalCount (deprecatedApis st'))).
Proof.
  destruct (extract_files st) as (st' & Hst' & Hapis & Hlast).
  exists st'. split_and!; [done| |done].
  rewrite Hapis. unfold all_items. rewrite foldl_bind.
  apply foldl_ext. intros apis f. apply scanned_items.
Qed.

(** X9: the registry an extraction builds.  The extraction always
    completes; its registry is the starting registry with every item of
    every listed file categorised, in scanning order (source roots in
    order, skipping those that do not exist; file patterns in order; files
    in the order listed; items in the order found; a file that cannot be
    read contributes nothing); the total grows by the number of these
    items, and the last line of the console reports the total. *)
Theorem extract_categorises_all_items st :
  ∃ st', extract h st = Ok st' ∧
    deprecatedApis st'
    = foldl (λ apis item, categorizeDeprecatedItem item apis)
        (deprecatedApis st) (all_items h) ∧
    getTotalCount (deprecatedApis st')
    = getTotalCount (deprecatedApis st) + List.length (all_items h) ∧
    last (console st') = Some (log_found (getTotalCount (deprecatedApis st'))).
Proof.
  destruct (extract_items st) as (st' & Hst' & Hitems & Hlast).
  exists st'. split_and!; [done..| |done].
  rewrite Hitems. apply categorize_all_total.
Qed.

Lemma all_items_item item :
  item ∈ all_items h → item_type item = guessItemType (context item).
Proof.
  unfold all_items, items_of_file. intros (f & Hitem & _)%list_elem_of_bind.
  destruct (readFileSync h f) as [content|]; [|by apply elem_of_nil in Hitem].
  apply findDeprecatedItems_item in Hitem as (i & line_ & _ & Hitem).
  by apply scanLine_item in Hitem as (_ & _ & ?).
Qed.

(** X11: source roots that do not exist are skipped with a warning.  When
    neither root exists the extraction completes, leaves the registry as
    it was, and writes the opening line, one warning per root and the
    total. *)
Theorem missing_roots_are_skipped st :
  (∀ sourcePath, sourcePath ∈ FRONTEND_SOURCE_PATHS →
                 existsSync h sourcePath = false) →
  extract h st
  = Ok {| deprecatedApis := deprecatedApis st;
          console := console st ++ [log_extracting]
                     ++ (warn_not_found <$> FRONTEND_SOURCE_PATHS)
                     ++ [log_found (getTotalCount (deprecatedApis st))] |}.
Proof.
  intros Hno. unfold extract, FRONTEND_SOURCE_PATHS in *. simpl.
  rewrite !Hno by (set_unfold; eauto). simpl. unfold write. simpl.
  by rewrite <-!app_assoc.
Qed.

(** X10: the categories of the output.  In the registry of an extraction
    started from a new extractor, the keys [classes] and [properties],
    which the constructor creates, hold no record: items of kind class and
    property are filed under the keys [classs] and [propertys], which the
    matcher's data type declares.  The registry has no key besides the six
    of the constructor and these two. *)
Theorem classes_and_properties_stay_empty :
  ∃ st, extract h new_extractor = Ok st ∧
    Obj.get (deprecatedApis st) "classes" = Some [] ∧
    Obj.get (deprecatedApis st) "properties" = Some [] ∧
    (∀ k, is_Some (Obj.get (deprecatedApis st) k) → k ∈ category_names) ∧
    (∀ item, item ∈ all_items h → category item ∈ category_names ∧
       (item_type item = class → category item = "classs") ∧
       (item_type item = property → category item = "propertys")).
Proof.
  destruct (extract_items new_extractor) as (st & Hst & Hapis & _).
  assert (∀ item, category item ∈ category_names ∧ category item ≠ "classes" ∧
            category item ≠ "properties" ∧
            (item_type item = class → category item = "classs") ∧
            (item_type item = property → category item = "propertys")) as Hcat.
  { intros item. unfold category.
    destruct (item_type item); simpl; split_and!; try done; by_compute. }
  exists st. split_and!; [done|..].
  - rewrite Hapis. rewrite categorize_all_get_ne; [done|]. intros ??. apply Hcat.
  - rewrite Hapis. rewrite categorize_all_get_ne; [done|]. intros ??. apply Hcat.
  - intros k. rewrite Hapis. clear Hapis Hst.
    assert (∀ apis : registry,
      (∀ k, is_Some (Obj.get apis k) → k ∈ category_names) →
      is_Some (Obj.get (foldl (λ apis item, categorizeDeprecatedItem item apis)
                          apis (all_items h)) k) → k ∈ category_names) as Hkeys.
    { induction (all_items h) as [|item items IH]; intros apis Hapis; [apply Hapis|].
      simpl. apply IH. intros k' Hk'.
      destruct (decide (k' = category item)) as [->|Hne]; [apply Hcat|].
      rewrite categorize_get_ne in Hk' by done. by apply Hapis. }
    apply (Hkeys (deprecatedApis new_extractor)).
    intros k' Hk'. apply (bool_decide_unpack _).
    unfold new_extractor in Hk'. simpl in Hk'.
    repeat (case_decide; [subst; by vm_compute|]). by destruct Hk'.
  - intros item _. destruct (Hcat item) as (? & _ & _ & ? & ?). done.
Qed.
End extraction.

Section extraction_examples.
Import Api Extractor Spec.

Lemma missing_roots_are_skipped_witness :
  extract empty_host new_extractor
  = Ok {| deprecatedApis := deprecatedApis new_extractor;
          console := [log_extracting]
                     ++ (warn_not_found <$> FRONTEND_SOURCE_PATHS)
                     ++ [log_found 0] |}.
Proof. by apply (missing_roots_are_skipped empty_host new_extractor). Defined.
End extraction_examples.

(** ** The items of a file *)

Section items.
Import Api Extractor Spec.

Lemma deprecationReason_nonempty m : deprecationReason m ≠ EmptyString.
Proof.
  unfold deprecationReason.
  destruct (Re.group_of _ 1) as [s|]; [|done].
  destruct (Js.truthy (Js.trim s)) eqn:Ht; [|done].
  by destruct (Js.trim s).
Qed.

Lemma scanLine_item_full filePath lines i line_ item :
  item ∈ scanLine filePath lines i line_ →
  ∃ pattern m,
    pattern ∈ DEPRECATED_PATTERNS ∧ Re.exec pattern line_ = Some m ∧
    item = {| file := filePath; line := i + 1;
              reason := deprecationReason m;
              context := getContextualInfo lines i;
              item_type := guessItemType (getContextualInfo lines i);
              fullMatch := Re.matched m |}.
Proof.
  unfold scanLine. intros (pattern & Hitem & Hp)%list_elem_of_bind.
  destruct (Re.exec pattern line_) as [m|] eqn:Hm; [|by apply elem_of_nil in Hitem].
  apply list_elem_of_singleton in Hitem. eauto.
Qed.

(** X12: every item the scanner finds is well formed.  Its file is the
    path given; its line number is that of a line of the content, counted
    from 1; that line is matched by one of the three annotation patterns,
    whose matched text and reason the item carries; the reason is never
    empty; the context is the one computed around that line and the kind
    is the one guessed from that context. *)
Theorem found_items_are_well_formed content filePath item :
  item ∈ findDeprecatedItems content filePath →
  let lines := Js.split_lines content in
  file item = filePath ∧
  1 ≤ line item ≤ List.length lines ∧
  context item = getContextualInfo lines (line item - 1) ∧
  item_type item = guessItemType (context item) ∧
  reason item ≠ EmptyString ∧
  ∃ line_ pattern m,
    lines !! (line item - 1) = Some line_ ∧
    pattern ∈ DEPRECATED_PATTERNS ∧ Re.exec pattern line_ = Some m ∧
    fullMatch item = Re.matched m ∧ reason item = deprecationReason m.
Proof.
  intros (i & line_ & Hl & Hitem)%findDeprecatedItems_item lines.
  apply scanLine_item_full in Hitem as (pattern & m & Hp & Hm & ->). simpl.
  replace (i + 1 - 1) with i by lia.
  apply lookup_lt_Some in Hl as Hlt. subst lines.
  split_and!; [done|lia|lia|done|done|apply deprecationReason_nonempty|eauto 10].
Qed.






Lemma found_items_are_well_formed_witness :
  let content := "export class Widget {" +:+ String "010"
                   ("// @deprecated use resize" +:+ String "010" "grow() {}") in
  let item := {| file := "widget.ts"; line := 2; reason := "use resize";
                 context := "export class Widget { grow() {}";
                 item_type := class;
                 fullMatch := "// @deprecated use resize" |} in
  item ∈ findDeprecatedItems content "widget.ts" ∧
  1 ≤ line item ≤ List.length (Js.split_lines content) ∧
  context item = getContextualInfo (Js.split_lines content) (line item - 1) ∧
  reason item ≠ EmptyString.
Proof.
  intros content item.
  assert (item ∈ findDeprecatedItems content "widget.ts") as Hin
    by (vm_compute; right; left).
  split; [done|].
  destruct (found_items_are_well_formed content "widget.ts" item Hin)
    as (_ & Hline & Hctx & _ & Hreason & _).
  done.
Defined.

Lemma getTotalCount_flatten (apis : registry) :
  getTotalCount apis = List.length (flatten apis).
Proof.
  induction apis as [|[k c] apis IH]; [done|].
  rewrite getTotalCount_cons, IH. unfold flatten, Obj.entries.
  rewrite bind_cons, length_app, length_fmap. done.
Qed.

(** X14: the counts of the output.  For the output generated after an
    extraction from a new extractor, [totalCount] is the number of items
    found in all the files scanned, which is the number of records of the
    registry, each of which the matcher indexes; [sources] lists both
    configured roots, whether they exist or not. *)
Theorem output_totalCount_counts_records h now_ :
  ∃ st, extract h new_extractor = Ok st ∧
    let output := generateOutput now_ st in
    totalCount output = List.length (all_items h) ∧
    totalCount output = List.length (flatten (output_deprecatedApis output)) ∧
    output_deprecatedApis output = deprecatedApis st ∧
    sources output = FRONTEND_SOURCE_PATHS ∧ extractedAt output = now_.
Proof.
  destruct (extract_items h new_extractor) as (st & Hst & Hitems & _).
  exists st. split; [done|]. simpl. split_and!; try done.
  - rewrite Hitems, categorize_all_total. done.
  - apply getTotalCount_flatten.
Qed.

(** X15: the exit status of the script.  A run ends with status 1 exactly
    when creating the output directory throws or, the directory being
    there, writing the file throws; then nothing is written and the last
    line of the console is the error.  Otherwise it ends with status 0
    after writing, at the output path, the serialisation of the output
    generated from the extraction.  Files that cannot be read never change
    the status. *)
Theorem main_exit_status h w :
  ∃ st, extract h new_extractor = Ok st ∧
    let content := stringify w (generateOutput (now w) st) in
    let failure :=
      match mkdirSync w (outputDir w) with
      | Throw message => Some message
      | Ok _ =>
          match writeFileSync w (outputPath w) content with
          | Throw message => Some message
          | Ok _ => None
          end
      end in
    match failure with
    | Some message =>
        exit_status (main h w) = 1 ∧ written (main h w) = None ∧
        last (main_console (main h w)) = Some (error_main message)
    | None =>
        exit_status (main h w) = 0 ∧
        written (main h w) = Some (outputPath w, content) ∧
        main_console (main h w)
        = (from_extractor <$> console st)
          ++ [log_written (outputPath w); log_summary]
          ++ summary (generateOutput (now w) st)
    end.
Proof.
  destruct (extract_total h new_extractor) as [st Hst].
  exists st. split; [done|]. unfold main. rewrite Hst.
  destruct (mkdirSync w (outputDir w)); simpl.
  - destruct (writeFileSync w (outputPath w) _); simpl; [done|].
    split_and!; [done..|]. by rewrite last_snoc.
  - split_and!; [done..|]. by rewrite last_snoc.
Qed.
End items.

(** ** What the patterns need *)

Section needs.
Import Re Api Extractor Spec.

Lemma append_assoc (s1 s2 s3 : string) : (s1 +:+ s2) +:+ s3 = s1 +:+ (s2 +:+ s3).
Proof.
  induction s1 as [|a s1 IH]; [done|].
  change ((String a s1 +:+ s2) +:+ s3) with (String a ((s1 +:+ s2) +:+ s3)).
  by rewrite IH.
Qed.

Lemma all_chars_app p s1 s2 :
  Js.all_chars p (s1 +:+ s2) = Js.all_chars p s1 && Js.all_chars p s2.
Proof.
  induction s1 as [|a s1 IH]; [done|].
  change (String a s1 +:+ s2) with (String a (s1 +:+ s2)). simpl.
  by rewrite IH, andb_assoc.
Qed.

(** A match consumes a prefix of the rest of the input. *)
Lemma iter_star_suffix greedy body fuel c x :
  (∀ c x, x ∈ body c → ∃ pre, rest c = pre +:+ rest x.1) →
  x ∈ iter_star greedy body fuel c → ∃ pre, rest c = pre +:+ rest x.1.
Proof.
  intros Hbody. revert c x. induction fuel as [|k IH]; intros c x; simpl.
  - intros ->%list_elem_of_singleton. by exists EmptyString.
  - assert (x ∈ (filter (λ x0, progress c x0 = true) (body c) ≫= λ x0,
                   iter_star greedy body k x0.1 ≫= λ y, [(y.1, x0.2 ++ y.2)])
            → ∃ pre, rest c = pre +:+ rest x.1) as Hmore.
    { intros (x0 & (y & ->%list_elem_of_singleton & Hy)%list_elem_of_bind
                 & [_ Hx0]%list_elem_of_filter)%list_elem_of_bind.
      destruct (Hbody c x0 Hx0) as [pre1 H1]. destruct (IH _ _ Hy) as [pre2 H2].
      exists (pre1 +:+ pre2). simpl. by rewrite append_assoc, <-H2. }
    destruct greedy.
    + intros [?| ->%list_elem_of_singleton]%elem_of_app; [auto|by exists EmptyString].
    + intros [->|?]%elem_of_cons; [by exists EmptyString|auto].
Qed.

Lemma run_suffix r c x : x ∈ run r c → ∃ pre, rest c = pre +:+ rest x.1.
Proof.
  revert c x. induction r as [|p|r1 IH1 r2 IH2|r1 IH1 r2 IH2|g r IH|i r IH| |];
    intros c x; simpl.
  - intros ->%list_elem_of_singleton. by exists EmptyString.
  - destruct (rest c) as [|a s] eqn:Hc; [by intros ?%elem_of_nil|].
    destruct (p a); [|by intros ?%elem_of_nil].
    intros ->%list_elem_of_singleton. by exists (String a EmptyString).
  - intros (x1 & (y & ->%list_elem_of_singleton & Hy)%list_elem_of_bind
               & Hx1)%list_elem_of_bind.
    destruct (IH1 _ _ Hx1) as [pre1 H1]. destruct (IH2 _ _ Hy) as [pre2 H2].
    exists (pre1 +:+ pre2). simpl. by rewrite append_assoc, <-H2.
  - intros [?|?]%elem_of_app; eauto.
  - apply iter_star_suffix. apply IH.
  - intros (x1 & ->%list_elem_of_singleton & Hx1)%list_elem_of_bind. simpl. eauto.
  - destruct (pos c =? 0); [|by intros ?%elem_of_nil].
    intros ->%list_elem_of_singleton. by exists EmptyString.
  - destruct (rest c) eqn:Hc; [|by intros ?%elem_of_nil].
    intros ->%list_elem_of_singleton. exists EmptyString. simpl. by rewrite Hc.
Qed.

Lemma reaches_suffix r c c' : reaches r c c' → ∃ pre, rest c = pre +:+ rest c'.
Proof. intros [g Hg]. by apply run_suffix in Hg. Qed.

Lemma reaches_class_inv p c c' :
  reaches (Class p) c c' →
  ∃ a, p a = true ∧ rest c = String a (rest c') ∧ pos c' = S (pos c).
Proof.
  intros [g Hg]. simpl in Hg.
  destruct (rest c) as [|a s]; [by apply elem_of_nil in Hg|].
  destruct (p a) eqn:Hp; [|by apply elem_of_nil in Hg].
  apply list_elem_of_singleton in Hg. simplify_eq. eauto.
Qed.

Lemma chr_i_at a : Js.lower a = Js.lower "@" → a = "@"%char.
Proof. by destruct a as [[] [] [] [] [] [] [] []]. Qed.

(** The three annotation patterns need the character [@]. *)
Lemma marker_needs_at X c c' :
  reaches (lit_i "@deprecated" >> X) c c' → no_at (rest c) = false.
Proof.
  intros (m & Hm & _)%reaches_seq. simpl in Hm.
  apply reaches_seq in Hm as (m1 & Ha & _).
  apply reaches_class_inv in Ha as (a & Ha & Hc & _).
  apply bool_decide_eq_true, chr_i_at in Ha. subst a.
  unfold no_at. by rewrite Hc.
Qed.

Lemma no_at_suffix pre s : no_at (pre +:+ s) = true → no_at s = true.
Proof.
  unfold no_at. rewrite all_chars_app. by intros [_ ?]%andb_true_iff.
Qed.

Lemma pattern_needs_at pattern c :
  pattern ∈ DEPRECATED_PATTERNS → no_at (rest c) = true → run pattern c = [].
Proof.
  intros Hp Hc.
  destruct (run pattern c) as [|x l] eqn:Hrun; [done|]. exfalso.
  assert (∃ c', reaches pattern c c') as [c' Hr].
  { apply run_nonempty. by rewrite Hrun. }
  unfold DEPRECATED_PATTERNS in Hp. set_unfold in Hp.
  destruct Hp as [->|[->|[->|[]]]].
  - apply marker_needs_at in Hr. congruence.
  - unfold block_comment in Hr.
    apply reaches_seq in Hr as (m1 & H1 & Hr).
    apply reaches_seq in Hr as (m2 & H2 & Hr).
    apply marker_needs_at in Hr.
    apply reaches_suffix in H1 as [pre1 H1]. apply reaches_suffix in H2 as [pre2 H2].
    rewrite H1 in Hc. apply no_at_suffix in Hc. rewrite H2 in Hc.
    apply no_at_suffix in Hc. congruence.
  - unfold line_comment in Hr.
    apply reaches_seq in Hr as (m1 & H1 & Hr).
    apply reaches_seq in Hr as (m2 & H2 & Hr).
    apply marker_needs_at in Hr.
    apply reaches_suffix in H1 as [pre1 H1]. apply reaches_suffix in H2 as [pre2 H2].
    rewrite H1 in Hc. apply no_at_suffix in Hc. rewrite H2 in Hc.
    apply no_at_suffix in Hc. congruence.
Qed.

Lemma search_no_at pattern s p :
  pattern ∈ DEPRECATED_PATTERNS → no_at s = true → search pattern p s = None.
Proof.
  intros Hp. revert p. induction s as [|a s IH]; intros p Hs; simpl.
  - by rewrite pattern_needs_at.
  - rewrite pattern_needs_at by done. apply IH.
    unfold no_at in *. simpl in Hs. by apply andb_true_iff in Hs as [_ ?].
Qed.

Lemma split_lines_all_chars p s :
  Js.all_chars p s = true →
  Forall (λ l, Js.all_chars p l = true) (Js.split_lines s).
Proof.
  induction s as [|a s IH]; intros Hs; simpl.
  - by constructor.
  - simpl in Hs. apply andb_true_iff in Hs as [Ha Hs]. specialize (IH Hs).
    destruct (Js.is_newline a); [by constructor|].
    destruct (Js.split_lines s) as [|l ls]; [by repeat constructor; simpl; rewrite Ha|].
    apply Forall_cons in IH as [Hl Hls]. constructor; [|done]. simpl. by rewrite Ha, Hl.
Qed.

Lemma join_imap_nil {A B} (f : nat → A → list B) ls :
  (∀ j x, x ∈ ls → f j x = []) → mjoin (imap f ls) = [].
Proof.
  revert f. induction ls as [|x ls IH]; intros f Hf; [done|].
  rewrite imap_cons. simpl. rewrite Hf by left. simpl.
  apply IH. intros j y Hy. apply Hf. by right.
Qed.

(** X16: a content without the character [@] yields no item, so the scan
    of such a file leaves the registry as it is. *)
Theorem no_at_sign_no_item content filePath :
  no_at content = true → findDeprecatedItems content filePath = [].
Proof.
  intros Hc. unfold findDeprecatedItems. apply join_imap_nil. intros j line_ Hl.
  assert (no_at line_ = true) as Hline.
  { apply split_lines_all_chars in Hc. rewrite Forall_forall in Hc. by apply Hc. }
  unfold scanLine, exec.
  assert (∀ pattern, pattern ∈ DEPRECATED_PATTERNS →
            search pattern 0 line_ = None) as Hnone
    by (intros; by apply search_no_at).
  unfold DEPRECATED_PATTERNS in *. rewrite !bind_cons.
  rewrite !Hnone by (set_unfold; eauto). done.
Qed.

Lemma no_at_sign_no_item_witness :
  findDeprecatedItems
    ("export const size = 1" +:+ String "010" "/* deprecated: use width */")
    "size.ts" = [].
Proof. apply no_at_sign_no_item. by vm_compute. Defined.
End needs.

(** ** Classification by the leading keyword *)

Section keywords.
Import Re Api Extractor Spec.

Lemma search_bol_later r s p : search (Seq Bol r) (S p) s = None.
Proof. revert p. induction s as [|a s IH]; intros p; simpl; [done|apply IH]. Qed.

(** A pattern that starts with [^] is tried at the start of the text only. *)
Lemma test_anchored_false pattern r s :
  pattern = Seq Bol r → run pattern (Cursor 0 s) = [] → test pattern s = false.
Proof.
  intros -> Hrun. unfold test, exec. destruct s as [|a s]; cbn [search].
  - by rewrite Hrun.
  - by rewrite Hrun, search_bol_later.
Qed.

Lemma test_anchored_true pattern s c' :
  reaches pattern (Cursor 0 s) c' → test pattern s = true.
Proof.
  intros Hr. unfold test, exec.
  destruct (search_found pattern EmptyString s 0 c' Hr) as [m Hm].
  change (EmptyString +:+ s) with s in Hm. by rewrite Hm.
Qed.

Lemma test_anchored_inv pattern r s :
  pattern = Seq Bol r → test pattern s = true →
  ∃ c', reaches r (Cursor 0 s) c'.
Proof.
  intros -> Ht. unfold test, exec in Ht.
  assert (run (Seq Bol r) (Cursor 0 s) ≠ []) as Hne.
  { intros Hrun. destruct s as [|a s]; cbn [search] in Ht; rewrite Hrun in Ht;
      [done|by rewrite search_bol_later in Ht]. }
  apply run_nonempty in Hne as [c' Hc'].
  apply reaches_seq in Hc' as (m & Hbol & Hr).
  destruct Hbol as [g Hg]. simpl in Hg. apply list_elem_of_singleton in Hg.
  simplify_eq. eauto.
Qed.

Lemma reaches_lit_inv pre c c' : reaches (lit pre) c c' → rest c = pre +:+ rest c'.
Proof.
  revert c. induction pre as [|a pre IH]; intros c; simpl.
  - intros [g Hg]. simpl in Hg. apply list_elem_of_singleton in Hg. by simplify_eq.
  - intros (m & Ha & Hpre)%reaches_seq.
    apply reaches_class_inv in Ha as (b & Hb & Hc & _).
    apply bool_decide_eq_true in Hb. subst b.
    rewrite Hc, (IH _ Hpre). done.
Qed.

Lemma export_prefix_skip c : reaches export_prefix c c.
Proof. apply reaches_alt. right. apply reaches_eps. Qed.

Lemma plus_ws_one a s n :
  Js.is_space a = true → reaches (plus ws) (Cursor n (String a s)) (Cursor (S n) s).
Proof.
  intros Ha. apply reaches_seq. eexists. split; [by apply reaches_class|].
  apply reaches_star_refl.
Qed.

Lemma export_prefix_export s :
  reaches export_prefix (Cursor 0 ("export " +:+ s)) (Cursor 7 s).
Proof.
  apply reaches_alt. left. apply reaches_group, reaches_seq.
  eexists. split; [apply (reaches_lit "export" (" " +:+ s) 0)|].
  by apply plus_ws_one.
Qed.

(** A keyword alternative followed by white space, as in the patterns for
    type-bearing and variable declarations. *)
Lemma keyword_then_space alternatives pre kw a s :
  pre = EmptyString ∨ pre = "export " →
  (∀ n, reaches alternatives (Cursor n (kw +:+ String a s))
          (Cursor (n + String.length kw) (String a s))) →
  Js.is_space a = true →
  test (Bol >> export_prefix >> Group 2 alternatives >> plus ws)%re
    (pre +:+ kw +:+ String a s) = true.
Proof.
  intros Hpre Hkw Ha.
  assert (∃ n, reaches export_prefix (Cursor 0 (pre +:+ kw +:+ String a s))
                 (Cursor n (kw +:+ String a s))) as [n Hn].
  { destruct Hpre as [->| ->]; [exists 0; apply export_prefix_skip|].
    exists 7. apply export_prefix_export. }
  apply (test_anchored_true _ _ (Cursor (S (n + String.length kw)) s)).
  apply reaches_seq. eexists. split; [apply reaches_bol|].
  apply reaches_seq. eexists. split; [exact Hn|].
  apply reaches_seq. eexists. split; [apply reaches_group, Hkw|].
  by apply plus_ws_one.
Qed.

Lemma type_bearing_matches pre kw a s :
  pre = EmptyString ∨ pre = "export " →
  kw ∈ ["class"; "interface"; "type"] → Js.is_space a = true →
  test type_bearing (pre +:+ kw +:+ String a s) = true.
Proof.
  intros Hpre Hkw Ha. apply keyword_then_space; [done| |done]. intros n.
  set_unfold in Hkw. destruct Hkw as [->|[->|[->|[]]]].
  - apply reaches_alt. left. apply reaches_lit.
  - apply reaches_alt. right. apply reaches_alt. left. apply reaches_lit.
  - apply reaches_alt. right. apply reaches_alt. right. apply reaches_lit.
Qed.

Lemma variable_decl_matches pre kw a s :
  pre = EmptyString ∨ pre = "export " →
  kw ∈ ["const"; "let"; "var"] → Js.is_space a = true →
  test variable_decl (pre +:+ kw +:+ String a s) = true.
Proof.
  intros Hpre Hkw Ha. apply keyword_then_space; [done| |done]. intros n.
  set_unfold in Hkw. destruct Hkw as [->|[->|[->|[]]]].
  - apply reaches_alt. left. apply reaches_lit.
  - apply reaches_alt. right. apply reaches_alt. left. apply reaches_lit.
  - apply reaches_alt. right. apply reaches_alt. right. apply reaches_lit.
Qed.

Lemma function_like_matches pre s :
  pre = EmptyString ∨ pre = "export " →
  test function_like (pre +:+ "function" +:+ s) = true.
Proof.
  intros Hpre.
  assert (∃ n, reaches export_prefix (Cursor 0 (pre +:+ "function" +:+ s))
                 (Cursor n ("function" +:+ s))) as [n Hn].
  { destruct Hpre as [->| ->]; [exists 0; apply export_prefix_skip|].
    exists 7. apply export_prefix_export. }
  apply (test_anchored_true _ _ (Cursor (n + 8) s)).
  apply reaches_seq. eexists. split; [apply reaches_bol|].
  apply reaches_seq. eexists. split; [exact Hn|].
  apply reaches_group, reaches_alt. left. apply (reaches_lit "function").
Qed.

(** X17: contexts that start with a declaration keyword, with or without
    a leading [export ].  A context that starts with [function] is a
    function, also when the word goes on ([functional ...]); one that
    starts with [class], [interface] or [type] and a white space is a
    class; one that starts with [let] or [var] and a white space is a
    constant; one that starts with [const] and a white space is a function
    or a constant. *)
Theorem keyword_decides_kind pre kw a s :
  pre = EmptyString ∨ pre = "export " → Js.is_space a = true →
  guessItemType (pre +:+ "function" +:+ s) = function ∧
  (kw ∈ ["class"; "interface"; "type"] →
   guessItemType (pre +:+ kw +:+ String a s) = class) ∧
  (kw ∈ ["let"; "var"] →
   guessItemType (pre +:+ kw +:+ String a s) = constant) ∧
  (guessItemType (pre +:+ "const" +:+ String a s) = function ∨
   guessItemType (pre +:+ "const" +:+ String a s) = constant).
Proof.
  intros Hpre Ha. split_and!.
  - unfold guessItemType. by rewrite function_like_matches.
  - intros Hkw. unfold guessItemType.
    rewrite (test_anchored_false function_like _ _ eq_refl).
    + by rewrite type_bearing_matches.
    + set_unfold in Hkw.
      destruct Hpre as [->| ->], Hkw as [->|[->|[->|[]]]]; vm_compute; reflexivity.
  - intros Hkw. unfold guessItemType.
    rewrite (test_anchored_false function_like _ _ eq_refl).
    + rewrite (test_anchored_false type_bearing _ _ eq_refl).
      * rewrite variable_decl_matches; [done..| |done]. by right.
      * set_unfold in Hkw.
        destruct Hpre as [->| ->], Hkw as [->|[->|[]]]; vm_compute; reflexivity.
    + set_unfold in Hkw.
      destruct Hpre as [->| ->], Hkw as [->|[->|[]]]; vm_compute; reflexivity.
  - unfold guessItemType.
    destruct (test function_like _); [by left|]. right.
    rewrite (test_anchored_false type_bearing _ _ eq_refl).
    + rewrite variable_decl_matches; [done..| |done]. left.
    + destruct Hpre as [->| ->]; vm_compute; reflexivity.
Qed.

Lemma keyword_decides_kind_witness :
  guessItemType "export functional = 1" = function ∧
  guessItemType "export type Id = string" = class ∧
  guessItemType "export var size" = constant.
Proof.
  destruct (keyword_decides_kind "export " "type" " " "Id = string")
    as (_ & Hclass & _ & _); [by right|done|].
  destruct (keyword_decides_kind "export " "var" " " "size")
    as (_ & _ & Hconst & _); [by right|done|].
  destruct (keyword_decides_kind "export " "var" " " "al = 1")
    as (Hfun & _); [by right|done|].
  split_and!.
  - exact Hfun.
  - apply Hclass. do 2 right. left.
  - apply Hconst. right. left.
Defined.

(** X18: an item is an import only if its context starts with [import]
    and a white space. *)
Theorem import_kind_needs_import_keyword context_ :
  guessItemType context_ = import →
  ∃ a s, context_ = "import" +:+ String a s ∧ Js.is_space a = true.
Proof.
  unfold guessItemType.
  destruct (test function_like context_); [done|].
  destruct (test type_bearing context_); [done|].
  destruct (test variable_decl context_); [done|].
  destruct (test type_alias context_); [done|].
  destruct (test property_shape context_); [done|].
  destruct (test import_stmt context_) eqn:Ht; [|done]. intros _.
  apply (test_anchored_inv import_stmt _ _ eq_refl) in Ht as [c' Hr].
  apply reaches_seq in Hr as (m & Hlit & Hws).
  apply reaches_lit_inv in Hlit. simpl in Hlit.
  apply reaches_seq in Hws as (m' & Hws & _).
  apply reaches_class_inv in Hws as (a & Ha & Hm & _).
  exists a, (rest m'). by rewrite Hlit, Hm.
Qed.

Lemma import_kind_needs_import_keyword_witness :
  ∃ a s, "import { app } from 'scripts/app'" = "import" +:+ String a s ∧
         Js.is_space a = true.
Proof.
  apply (import_kind_needs_import_keyword "import { app } from 'scripts/app'").
  by vm_compute.
Defined.

Lemma split_lines_single s : no_newline s = true → Js.split_lines s = [s].
Proof.
  induction s as [|a s IH]; [done|]. unfold no_newline. simpl.
  intros [Ha Hs]%andb_true_iff. apply negb_true_iff in Ha. rewrite Ha.
  by rewrite IH.
Qed.

(** X19: an annotation without context is recorded as unknown.  An item
    whose context is empty (no code line in the window around the
    annotation) has the kind [unknown] and is filed under [functions] with
    the name [unknown]; this is the case of every item of a content of one
    line. *)
Theorem annotation_without_context_is_unknown content filePath item :
  item ∈ findDeprecatedItems content filePath →
  context item = EmptyString ∨ no_newline content = true →
  context item = EmptyString ∧ item_type item = unknown ∧
  category item = "functions" ∧ name (record_of item) = "unknown".
Proof.
  intros Hitem Hctx.
  apply findDeprecatedItems_item in Hitem as (i & line_ & Hl & Hitem).
  apply scanLine_item_full in Hitem as (pattern & m & _ & _ & ->). simpl in *.
  assert (getContextualInfo (Js.split_lines content) i = EmptyString) as Hempty.
  { destruct Hctx as [?|Hone]; [done|].
    rewrite split_lines_single in * by done.
    apply list_lookup_singleton_Some in Hl as [-> _]. done. }
  unfold category, record_of. simpl. rewrite Hempty. by vm_compute.
Qed.

Lemma annotation_without_context_is_unknown_witness :
  let item := {| file := "legacy.js"; line := 1; reason := "use resize";
                 context := EmptyString; item_type := unknown;
                 fullMatch := "@deprecated use resize */" |} in
  item ∈ findDeprecatedItems "/* @deprecated use resize */ function grow() {}" "legacy.js" ∧
  category item = "functions" ∧ name (record_of item) = "unknown".
Proof.
  intros item.
  assert (item ∈ findDeprecatedItems
            "/* @deprecated use resize */ function grow() {}" "legacy.js") as Hin
    by (vm_compute; left).
  split; [done|].
  destruct (annotation_without_context_is_unknown _ _ item Hin) as (_ & _ & ? & ?);
    [by left|done].
Defined.
End keywords.

(** ** The reason of an annotation *)

Section reasons.
Import Re Api Extractor Spec.

Lemma length_append (s1 s2 : string) :
  String.length (s1 +:+ s2) = String.length s1 + String.length s2.
Proof.
  induction s1 as [|a s1 IH]; [done|].
  change (String a s1 +:+ s2) with (String a (s1 +:+ s2)). simpl. by rewrite IH.
Qed.

Lemma substring_all s : String.substring 0 (String.length s) s = s.
Proof. induction s as [|a s IH]; [done|]. simpl. by rewrite IH. Qed.

Lemma bind_pair_id (l : list (cursor * captures)) :
  (l ≫= λ y, [(y.1, [] ++ y.2)]) = l.
Proof.
  induction l as [|[c g] l IH]; [done|]. rewrite bind_cons, IH. done.
Qed.

Lemma run_lit_i pre s n :
  run (lit_i pre) (Cursor n (pre +:+ s)) = [(Cursor (n + String.length pre) s, [])].
Proof.
  revert n. induction pre as [|a pre IH]; intros n.
  - simpl. by rewrite Nat.add_0_r.
  - change (String a pre +:+ s) with (String a (pre +:+ s)).
    cbn [lit_i run]. unfold chr_i at 1. cbn [run rest pos].
    rewrite bool_decide_eq_true_2 by done. rewrite bind_singleton. cbn [fst snd].
    rewrite IH, bind_singleton. cbn [fst snd app]. simpl.
    by rewrite Nat.add_succ_r.
Qed.

(** A greedy repetition of a class first takes the whole run of characters
    of the class. *)
Lemma star_greedy_head p pre s n :
  Js.all_chars p pre = true →
  match s with EmptyString => True | String b _ => p b = false end →
  ∃ tl, run (Star true (Class p)) (Cursor n (pre +:+ s))
        = (Cursor (n + String.length pre) s, []) :: tl.
Proof.
  intros Hpre Hs. revert n. induction pre as [|a pre IH]; intros n.
  - change (EmptyString +:+ s) with s. simpl. rewrite Nat.add_0_r.
    destruct s as [|b s]; simpl; [eauto|]. rewrite Hs. simpl. eauto.
  - change (String a pre +:+ s) with (String a (pre +:+ s)).
    simpl in Hpre. apply andb_true_iff in Hpre as [Ha Hpre].
    simpl. rewrite Ha.
    rewrite (filter_singleton_True _ _ [])
      by (unfold progress; simpl; apply Nat.ltb_lt; lia).
    rewrite bind_singleton. cbn [fst snd].
    destruct (IH Hpre (S n)) as [tl Htl]. simpl in Htl. rewrite Htl.
    simpl. rewrite Nat.add_succ_r. eauto.
Qed.

(** A lazy repetition of a class over a text of the class stops at every
    position, from left to right. *)
Lemma run_star_lazy p s n :
  Js.all_chars p s = true →
  run (Star false (Class p)) (Cursor n s) = lazy_positions n s.
Proof.
  revert n. induction s as [|a s IH]; intros n Hs; [done|].
  simpl in Hs. apply andb_true_iff in Hs as [Ha Hs].
  simpl. rewrite Ha.
  rewrite (filter_singleton_True _ _ [])
    by (unfold progress; simpl; apply Nat.ltb_lt; lia).
  rewrite bind_singleton. cbn [fst snd].
  specialize (IH (S n) Hs). simpl in IH. rewrite IH.
  by rewrite bind_pair_id.
Qed.

Lemma marker_end_inside a s n :
  Js.is_line_terminator a = false → no_slash s = true →
  run marker_end (Cursor n (String a s)) = [].
Proof.
  intros Ha Hs. unfold marker_end. simpl.
  assert (bool_decide (a = "010"%char) = false) as ->.
  { apply bool_decide_eq_false. intros ->. done. }
  case_bool_decide; [|done]. simpl.
  destruct s as [|b s]; [done|].
  unfold no_slash in Hs. simpl in Hs. apply andb_true_iff in Hs as [Hb _].
  apply negb_true_iff in Hb. simpl. by rewrite Hb.
Qed.

Lemma marker_end_at_end n :
  run marker_end (Cursor n EmptyString) = [(Cursor n EmptyString, [])].
Proof. done. Qed.

(** Among the stops of the lazy repetition, only the end of the line is
    followed by the end of the pattern. *)
Lemma lazy_positions_end (cap : cursor → string) s n :
  single_line s = true → no_slash s = true →
  ((lazy_positions n s ≫= λ z, [(z.1, z.2 ++ [(1, cap z.1)])])
   ≫= λ x, run marker_end x.1 ≫= λ y, [(y.1, x.2 ++ y.2)])
  = [(Cursor (n + String.length s) EmptyString,
      [(1, cap (Cursor (n + String.length s) EmptyString))])].
Proof.
  revert n. induction s as [|a s IH]; intros n Hl Hs.
  - simpl. by rewrite Nat.add_0_r.
  - unfold single_line in Hl. simpl in Hl. apply andb_true_iff in Hl as [Ha Hl].
    apply negb_true_iff in Ha.
    assert (no_slash s = true) as Hs'.
    { unfold no_slash in *. simpl in Hs. by apply andb_true_iff in Hs as [_ ?]. }
    cbn [lazy_positions]. rewrite bind_cons. cbn [fst snd app].
    rewrite bind_cons. cbn [fst snd].
    rewrite (marker_end_inside a s n Ha Hs'). cbn [mbind list_bind app].
    rewrite (IH (S n) Hl Hs'). simpl. by rewrite Nat.add_succ_r.
Qed.

Lemma run_seq r1 r2 c :
  run (Seq r1 r2) c = x ← run r1 c; y ← run r2 x.1; [(y.1, x.2 ++ y.2)].
Proof. done. Qed.

Lemma run_group i r c :
  run (Group i r) c = x ← run r c; [(x.1, x.2 ++ [(i, consumed c x.1)])].
Proof. done. Qed.

Lemma run_class_hit p a s n :
  p a = true → run (Class p) (Cursor n (String a s)) = [(Cursor (S n) s, [])].
Proof. intros Hp. simpl. by rewrite Hp. Qed.

(** The text after the marker, up to the end of the line, is what the
    group of the leading-marker pattern captures. *)
Lemma run_captured_text a t n :
  single_line (String a t) = true → no_slash (String a t) = true →
  run (Group 1 (plus_lazy dot) >> marker_end)%re (Cursor n (String a t))
  = [(Cursor (S n + String.length t) EmptyString, [(1, String a t)])].
Proof.
  intros Hl Hs.
  assert (single_line t = true ∧ no_slash t = true ∧
          negb (Js.is_line_terminator a) = true) as (Hl' & Hs' & Ha).
  { unfold single_line, no_slash in *. simpl in Hl, Hs.
    apply andb_true_iff in Hl as [? ?]. by apply andb_true_iff in Hs as [? ?]. }
  rewrite run_seq, run_group. unfold plus_lazy. rewrite run_seq.
  assert (run dot (Cursor n (String a t)) = [(Cursor (S n) t, [])]) as ->
    by (by apply run_class_hit).
  rewrite bind_singleton. cbn [fst snd].
  assert (run (Star false dot) (Cursor (S n) t) = lazy_positions (S n) t) as ->
    by (by apply run_star_lazy).
  rewrite bind_pair_id.
  rewrite (lazy_positions_end (consumed (Cursor n (String a t))) t (S n)) by done.
  unfold consumed. cbn [pos rest].
  replace (S n + String.length t - n) with (String.length (String a t))
    by (simpl; lia).
  by rewrite substring_all.
Qed.

Lemma run_leading_marker ws a t n :
  ws ≠ EmptyString → Js.all_chars Js.is_space ws = true →
  Js.is_space a = false →
  single_line (String a t) = true → no_slash (String a t) = true →
  ∃ tl, run leading_marker (Cursor n ("@deprecated" +:+ ws +:+ String a t))
        = (Cursor (n + String.length ("@deprecated" +:+ ws +:+ String a t))
             EmptyString,
           [(1, String a t)]) :: tl.
Proof.
  intros Hne Hws Ha Hl Hs. destruct ws as [|w ws]; [done|].
  simpl in Hws. apply andb_true_iff in Hws as [Hw Hws].
  unfold leading_marker.
  change (chr "010" <|> Eol <|> lit "*/")%re with marker_end.
  rewrite run_seq, run_lit_i, bind_singleton. cbn [fst snd].
  rewrite bind_pair_id, run_seq. unfold plus at 1. rewrite run_seq.
  change (String w ws +:+ String a t) with (String w (ws +:+ String a t)).
  assert (run Re.ws (Cursor (n + String.length "@deprecated")
                       (String w (ws +:+ String a t)))
          = [(Cursor (S (n + String.length "@deprecated")) (ws +:+ String a t), [])])
    as -> by (by apply run_class_hit).
  rewrite bind_singleton. cbn [fst snd].
  destruct (star_greedy_head Js.is_space ws (String a t)
              (S (n + String.length "@deprecated")) Hws Ha) as [tl Htl].
  change (run (Star true Re.ws) ?c) with (run (Star true (Class Js.is_space)) c).
  rewrite Htl, bind_pair_id, bind_cons. cbn [fst snd].
  rewrite run_captured_text by done. rewrite bind_singleton. cbn [fst snd app].
  eexists. f_equal. f_equal. f_equal.
  simpl. rewrite !length_append. simpl. lia.
Qed.

Lemma search_skip_no_at pre s p :
  no_at pre = true →
  search leading_marker p (pre +:+ s)
  = search leading_marker (p + String.length pre) s.
Proof.
  revert p. induction pre as [|b pre IH]; intros p Hpre.
  - change (EmptyString +:+ s) with s. simpl. by rewrite Nat.add_0_r.
  - change (String b pre +:+ s) with (String b (pre +:+ s)).
    unfold no_at in Hpre. simpl in Hpre. apply andb_true_iff in Hpre as [Hb Hpre].
    apply negb_true_iff, bool_decide_eq_false in Hb.
    cbn [search].
    assert (run leading_marker (Cursor p (String b (pre +:+ s))) = []) as ->.
    { unfold leading_marker. rewrite run_seq.
      assert (run (lit_i "@deprecated") (Cursor p (String b (pre +:+ s))) = [])
        as ->; [|done].
      simpl. rewrite bool_decide_eq_false_2; [done|]. intros ?%chr_i_at. done. }
    rewrite (IH (S p) Hpre). simpl. by rewrite Nat.add_succ_r.
Qed.

Lemma search_head r p s x tl :
  run r (Cursor p s) = x :: tl →
  search r p s = Some (Match p (consumed (Cursor p s) x.1) x.2).
Proof. intros Hrun. destruct s; simpl; by rewrite Hrun. Qed.

(** X20: the text the leading-marker pattern captures.  On a line that
    has, after a text without [@], the marker [@deprecated], white space
    and then a text that starts with a character that is no white space
    and holds neither a line terminator nor [/], the pattern matches at
    the marker, up to the end of the line, and its group is that text; the
    reason of the item is that text trimmed. *)
Theorem leading_marker_captures_text pre ws a t :
  no_at pre = true →
  ws ≠ EmptyString → Js.all_chars Js.is_space ws = true →
  Js.is_space a = false →
  single_line (String a t) = true → no_slash (String a t) = true →
  let marked := "@deprecated" +:+ ws +:+ String a t in
  exec leading_marker (pre +:+ marked)
  = Some (Match (String.length pre) marked [(1, String a t)]) ∧
  ∀ m, exec leading_marker (pre +:+ marked) = Some m →
       deprecationReason m
       = if Js.truthy (Js.trim (String a t)) then Js.trim (String a t)
         else "No reason provided".
Proof.
  intros Hpre Hne Hws Ha Hl Hs marked. subst marked.
  destruct (run_leading_marker ws a t (0 + String.length pre) Hne Hws Ha Hl Hs)
    as [tl Htl].
  set (marked := "@deprecated" +:+ ws +:+ String a t) in *.
  assert (exec leading_marker (pre +:+ marked)
          = Some (Match (String.length pre) marked [(1, String a t)])) as Hexec.
  { unfold exec. rewrite search_skip_no_at by done.
    rewrite (search_head _ _ _ _ _ Htl). cbn [fst snd]. f_equal. f_equal.
    unfold consumed. cbn [pos rest].
    replace (0 + String.length pre + String.length marked - (0 + String.length pre))
      with (String.length marked) by lia.
    apply substring_all. }
  split; [done|]. intros m Hm. rewrite Hexec in Hm. by simplify_eq.
Qed.

Lemma leading_marker_captures_text_witness :
  exec leading_marker "   * @deprecated Use `refresh` instead."
  = Some (Match 5 "@deprecated Use `refresh` instead."
            [(1, "Use `refresh` instead.")]).
Proof.
  by destruct (leading_marker_captures_text "   * " " " "U" "se `refresh` instead.")
    as [H _].
Defined.
End reasons.

(** ** The annotation line and the context *)

Section window.
Import Re Api Extractor Spec.

(** X21: the text of the annotation line never enters the context: the
    context, and with it the kind guessed and the name extracted, stay the
    same when the line at the annotation's index is replaced by any other
    text.  A declaration written on the line of its annotation is thus not
    seen. *)
Theorem context_ignores_annotation_line (lines : list string) i l :
  getContextualInfo (<[i:=l]> lines) i = getContextualInfo lines i ∧
  guessItemType (getContextualInfo (<[i:=l]> lines) i)
  = guessItemType (getContextualInfo lines i).
Proof.
  assert (getContextualInfo (<[i:=l]> lines) i = getContextualInfo lines i) as Heq.
  { unfold getContextualInfo. rewrite length_insert. f_equal.
    apply bind_ext_in. intros j _. case_decide; [|done].
    by rewrite list_lookup_insert_ne. }
  by rewrite Heq.
Qed.
End window.

(** ** The name of a declaration *)

Section declared_names.
Import Re Api Extractor Spec.

Lemma is_word_not_space b : Js.is_word b = true → Js.is_space b = false.
Proof. by destruct b as [[] [] [] [] [] [] [] []]. Qed.

Lemma word_prefix_app w s :
  Js.all_chars Js.is_word w = true →
  match s with EmptyString => True | String c _ => Js.is_word c = false end →
  word_prefix (w +:+ s) = w.
Proof.
  intros Hw Hs. induction w as [|b w IH].
  - change (EmptyString +:+ s) with s. destruct s as [|c s]; [done|].
    simpl. by rewrite Hs.
  - change (String b w +:+ s) with (String b (w +:+ s)).
    simpl in Hw. apply andb_true_iff in Hw as [Hb Hw].
    simpl. by rewrite Hb, IH.
Qed.

Lemma search_cons_fail r p b s :
  run r (Cursor p (String b s)) = [] → search r p (String b s) = search r (S p) s.
Proof. intros Hrun. simpl. by rewrite Hrun. Qed.

(** White space and a name, after a keyword: the name is captured whole. *)
Lemma run_space_name ws b w s n :
  ws ≠ EmptyString → Js.all_chars Js.is_space ws = true →
  Js.all_chars Js.is_word (String b w) = true →
  match s with EmptyString => True | String c _ => Js.is_word c = false end →
  ∃ c' tl, run (plus Re.ws >> Group 1 (plus word))%re
             (Cursor n (ws +:+ String b w +:+ s))
           = (c', [(1, String b w)]) :: tl.
Proof.
  intros Hne Hws Hw Hs. destruct ws as [|a ws]; [done|].
  simpl in Hws. apply andb_true_iff in Hws as [Ha Hws].
  simpl in Hw. apply andb_true_iff in Hw as [Hb Hw].
  change (String a ws +:+ String b w +:+ s)
    with (String a (ws +:+ String b (w +:+ s))).
  rewrite run_seq.
  change (run (plus Re.ws) ?c) with (run (Seq Re.ws (Star true Re.ws)) c).
  rewrite run_seq.
  assert (run Re.ws (Cursor n (String a (ws +:+ String b (w +:+ s))))
          = [(Cursor (S n) (ws +:+ String b (w +:+ s)), [])]) as ->
    by (by apply run_class_hit).
  rewrite bind_singleton. cbn [fst snd].
  destruct (star_greedy_head Js.is_space ws (String b (w +:+ s)) (S n) Hws)
    as [tl Htl]; [by apply is_word_not_space|].
  change (run (Star true Re.ws) ?c) with (run (Star true (Class Js.is_space)) c).
  rewrite Htl, bind_pair_id, bind_cons. cbn [fst snd].
  destruct (run_first_word_word b (w +:+ s) (S n + String.length ws) Hb)
    as (c' & tl' & Hrun & _).
  change (Group 1 (plus word)) with first_word_pattern.
  rewrite Hrun, bind_cons. cbn [fst snd app].
  rewrite word_prefix_app by done. eauto.
Qed.

Lemma run_keyword_name kws kw ws b w s n m :
  run kws (Cursor n (kw +:+ ws +:+ String b w +:+ s))
  = [(Cursor m (ws +:+ String b w +:+ s), [])] →
  ws ≠ EmptyString → Js.all_chars Js.is_space ws = true →
  Js.all_chars Js.is_word (String b w) = true →
  match s with EmptyString => True | String c _ => Js.is_word c = false end →
  ∃ c' tl, run (kws >> plus Re.ws >> Group 1 (plus word))%re
             (Cursor n (kw +:+ ws +:+ String b w +:+ s))
           = (c', [(1, String b w)]) :: tl.
Proof.
  intros Hkw Hne Hws Hw Hs.
  destruct (run_space_name ws b w s m Hne Hws Hw Hs) as (c' & tl & Hrun).
  rewrite run_seq, Hkw, bind_singleton. cbn [fst snd].
  rewrite Hrun, bind_cons. cbn [fst snd app]. eauto.
Qed.

Lemma extract_first_group pattern k context_ i matched_ w gs :
  patterns k = Some pattern → 1 ≤ ngroups pattern →
  exec pattern context_ = Some (Match i matched_ ((1, w) :: gs)) →
  group_of gs 1 = None →
  Js.truthy w = true →
  extractIdentifierName context_ k = w.
Proof.
  intros Hp Hn Hexec Hgs Hw. unfold extractIdentifierName. rewrite Hp. simpl.
  rewrite Hexec. unfold match_array. simpl.
  destruct (ngroups pattern) as [|g]; [lia|]. simpl. rewrite Hgs. simpl.
  by rewrite Hw.
Qed.

Lemma extract_at k pattern context_ n tail c' tl w :
  patterns k = Some pattern → 1 ≤ ngroups pattern →
  search pattern 0 context_ = search pattern n tail →
  run pattern (Cursor n tail) = (c', [(1, w)]) :: tl →
  Js.truthy w = true →
  extractIdentifierName context_ k = w.
Proof.
  intros Hp Hn Hsearch Hrun Hw.
  apply (extract_first_group pattern k context_ n
           (consumed (Cursor n tail) c') w []); try done.
  unfold exec. rewrite Hsearch. by rewrite (search_head _ _ _ _ _ Hrun).
Qed.

Lemma export_prefix_chars X :
  "export " +:+ X
  = String "e" (String "x" (String "p" (String "o" (String "r" (String "t"
      (String " " X)))))).
Proof. done. Qed.

Lemma run_alt r1 r2 c : run (r1 <|> r2)%re c = run r1 c ++ run r2 c.
Proof. done. Qed.

Lemma bind_ext_fun {A B} (f g : A → list B) (l : list A) :
  (∀ x, f x = g x) → l ≫= f = l ≫= g.
Proof.
  intros Hfg. induction l as [|x l IH]; [done|].
  by rewrite !bind_cons, Hfg, IH.
Qed.

Lemma iter_classes_eq greedy p fuel c :
  iter_star greedy (run (Class p)) fuel c
  = iter_classes greedy (run_classes (Class p)) fuel c.
Proof.
  revert c. induction fuel as [|k IH]; intros c; [done|].
  simpl. destruct c as [n [|a s]]; simpl; [done|].
  destruct (p a); simpl; [|done].
  rewrite (filter_singleton_True _ _ [])
    by (unfold progress; simpl; apply Nat.ltb_lt; lia).
  rewrite bind_singleton. cbn [fst snd]. rewrite IH.
  destruct greedy; simpl; by rewrite app_nil_r.
Qed.

Lemma run_classes_eq r c : class_stars r = true → run r c = run_classes r c.
Proof.
  revert c. induction r as [|p|r1 IH1 r2 IH2|r1 IH1 r2 IH2|g r IH|i r IH| |];
    intros c Hr; try done.
  - simpl in Hr. apply andb_true_iff in Hr as [H1 H2].
    simpl. rewrite IH1 by done. apply bind_ext_fun. intros x.
    by rewrite IH2.
  - simpl in Hr. apply andb_true_iff in Hr as [H1 H2].
    simpl. by rewrite IH1, IH2.
  - destruct r; try done. apply iter_classes_eq.
  - simpl in Hr. simpl. by rewrite IH.
Qed.

(** The positions of a leading [export ] are passed when the pattern does
    not match there. *)
Ltac skip_export :=
  rewrite export_prefix_chars;
  repeat (rewrite search_cons_fail
            by (rewrite run_classes_eq by reflexivity; vm_compute; reflexivity)).

(** X22: the name of a declaration.  For a context made of an optional
    [export ], a declaration keyword, white space and a name (word
    characters, followed by the end of the context or by a character that
    is no word character), the name extracted is the name declared: for
    the kind class after [class], [interface] or [type], for the kind
    constant after [const], [let] or [var], for the kind function after
    [function]. *)
Theorem declared_name_is_extracted pre kw ws b w s :
  pre = EmptyString ∨ pre = "export " →
  ws ≠ EmptyString → Js.all_chars Js.is_space ws = true →
  Js.all_chars Js.is_word (String b w) = true →
  match s with EmptyString => True | String c _ => Js.is_word c = false end →
  let context_ := pre +:+ kw +:+ ws +:+ String b w +:+ s in
  (kw ∈ ["class"; "interface"; "type"] →
   extractIdentifierName context_ class = String b w) ∧
  (kw ∈ ["const"; "let"; "var"] →
   extractIdentifierName context_ constant = String b w) ∧
  (kw = "function" → extractIdentifierName context_ function = String b w).
Proof.
  intros Hpre Hne Hws Hw Hs context_. subst context_.
  set (tail := ws +:+ String b w +:+ s).
  assert (∀ kws n m,
    run kws (Cursor n (kw +:+ tail)) = [(Cursor m tail, [])] →
    ∃ c' tl, run (kws >> plus Re.ws >> Group 1 (plus word))%re
               (Cursor n (kw +:+ tail)) = (c', [(1, String b w)]) :: tl) as Hname.
  { intros kws n m Hkws. by apply (run_keyword_name kws kw ws b w s n m). }
  split_and!.
  - intros Hkw. set_unfold in Hkw.
    destruct Hpre as [->| ->], Hkw as [->|[->|[->|[]]]];
      match goal with
      | |- extractIdentifierName (EmptyString +:+ ?X) _ = _ =>
          edestruct (Hname (lit "class" <|> lit "interface" <|> lit "type")%re 0)
            as (c' & tl & Hrun); [reflexivity|];
          eapply (extract_at class _ _ 0 X c' tl);
            [reflexivity | simpl; lia | reflexivity | exact Hrun | reflexivity]
      | |- extractIdentifierName ("export " +:+ ?X) _ = _ =>
          edestruct (Hname (lit "class" <|> lit "interface" <|> lit "type")%re 7)
            as (c' & tl & Hrun); [reflexivity|];
          eapply (extract_at class _ _ 7 X c' tl);
            [reflexivity | simpl; lia | skip_export; reflexivity | exact Hrun
            | reflexivity]
      end.
  - intros Hkw. set_unfold in Hkw.
    destruct Hpre as [->| ->], Hkw as [->|[->|[->|[]]]];
      match goal with
      | |- extractIdentifierName (EmptyString +:+ ?X) _ = _ =>
          edestruct (Hname (lit "const" <|> lit "let" <|> lit "var")%re 0)
            as (c' & tl & Hrun); [reflexivity|];
          eapply (extract_at constant _ _ 0 X c' tl);
            [reflexivity | simpl; lia | reflexivity | exact Hrun | reflexivity]
      | |- extractIdentifierName ("export " +:+ ?X) _ = _ =>
          edestruct (Hname (lit "const" <|> lit "let" <|> lit "var")%re 7)
            as (c' & tl & Hrun); [reflexivity|];
          eapply (extract_at constant _ _ 7 X c' tl);
            [reflexivity | simpl; lia | skip_export; reflexivity | exact Hrun
            | reflexivity]
      end.
  - intros ->.
    destruct Hpre as [->| ->];
      match goal with
      | |- extractIdentifierName (EmptyString +:+ ?X) _ = _ =>
          edestruct (Hname (lit "function") 0) as (c' & tl & Hrun);
            [reflexivity|];
          eapply (extract_at function _ _ 0 X c');
            [reflexivity | simpl; lia | reflexivity
            | rewrite run_alt, Hrun; reflexivity | reflexivity]
      | |- extractIdentifierName ("export " +:+ ?X) _ = _ =>
          edestruct (Hname (lit "function") 7) as (c' & tl & Hrun);
            [reflexivity|];
          eapply (extract_at function _ _ 7 X c');
            [reflexivity | simpl; lia | skip_export; reflexivity
            | rewrite run_alt, Hrun; reflexivity | reflexivity]
      end.
Qed.

Lemma declared_name_is_extracted_witness :
  extractIdentifierName "export function oldResize(w, h) {" function = "oldResize" ∧
  extractIdentifierName "interface LegacyNode extends Base {" class = "LegacyNode" ∧
  extractIdentifierName "export const  MAX_SIZE = 4" constant = "MAX_SIZE".
Proof.
  destruct (declared_name_is_extracted "export " "function" " " "o" "ldResize"
              "(w, h) {") as (_ & _ & Hfun);
    [by right|done|reflexivity|reflexivity|reflexivity|].
  destruct (declared_name_is_extracted EmptyString "interface" " " "L" "egacyNode"
              " extends Base {") as (Hclass & _ & _);
    [by left|done|reflexivity|reflexivity|reflexivity|].
  destruct (declared_name_is_extracted "export " "const" "  " "M" "AX_SIZE"
              " = 4") as (_ & Hconst & _);
    [by right|done|reflexivity|reflexivity|reflexivity|].
  split_and!.
  - by apply Hfun.
  - apply Hclass. right. left.
  - apply Hconst. left.
Defined.
End declared_names.

(** ** The items of one annotation line *)

Section duplicates.
Import Re Api Extractor Spec.

(** A line yields one item per annotation pattern that matches it. *)
Lemma scanLine_count filePath lines i line_ :
  List.length (scanLine filePath lines i line_)
  = (if test leading_marker line_ then 1 else 0)
    + (if test block_comment line_ then 1 else 0)
    + (if test line_comment line_ then 1 else 0).
Proof.
  unfold scanLine, DEPRECATED_PATTERNS, test. rewrite !bind_cons.
  by destruct (exec leading_marker line_), (exec block_comment line_),
    (exec line_comment line_).
Qed.

(** The block-comment pattern starts with [/**]: it needs a [*]. *)
Lemma block_comment_needs_star c :
  no_star (rest c) = true → run block_comment c = [].
Proof.
  intros Hc. destruct (run block_comment c) as [|x l] eqn:Hrun; [done|]. exfalso.
  assert (∃ c', reaches block_comment c c') as [c' Hr].
  { apply run_nonempty. by rewrite Hrun. }
  unfold block_comment in Hr.
  apply reaches_seq in Hr as (m & Hm & _). simpl in Hm.
  apply reaches_seq in Hm as (m1 & H1 & Hm).
  apply reaches_seq in Hm as (m2 & H2 & _).
  apply reaches_class_inv in H1 as (a1 & _ & Hc1 & _).
  apply reaches_class_inv in H2 as (a2 & Ha2 & Hc2 & _).
  apply bool_decide_eq_true in Ha2. subst a2.
  unfold no_star in Hc. rewrite Hc1, Hc2 in Hc. simpl in Hc.
  by rewrite andb_false_r in Hc.
Qed.

Lemma search_no_star s p : no_star s = true → search block_comment p s = None.
Proof.
  revert p. induction s as [|a s IH]; intros p Hs; cbn [search].
  - by rewrite block_comment_needs_star.
  - rewrite block_comment_needs_star by done. apply IH.
    unfold no_star in *. simpl in Hs. by apply andb_true_iff in Hs as [_ ?].
Qed.

(** C10, as stated, fails, in both directions.  In a file with CR LF line
    ends, split at LF, the line [// @deprecated use resize] keeps its CR:
    the leading-marker pattern does not match it and the scanner pushes
    one item.  And a line whose text holds a block comment with a marker of
    its own is matched by all three patterns: the scanner pushes three
    items. *)
Lemma annotation_line_pushed_once_or_thrice :
  let cr := String "013" EmptyString in
  let crlf := "// @deprecated use resize" +:+ cr +:+ String "010" "grow() {}" in
  let thrice := "// @deprecated use /** @deprecated */ resize" in
  (Js.split_lines crlf !! 0 = Some ("// @deprecated " +:+ "use resize" +:+ cr) ∧
   exec leading_marker ("// @deprecated " +:+ "use resize" +:+ cr) = None ∧
   List.length (items_of_line 1 (findDeprecatedItems crlf "widget.ts")) = 1) ∧
  (Js.split_lines thrice !! 0
   = Some ("// @deprecated " +:+ "use /** @deprecated */ resize") ∧
   List.length (items_of_line 1 (findDeprecatedItems thrice "widget.ts")) = 3).
Proof. split; split_and!; by vm_compute. Qed.

(** C10, amended: a line [// @deprecated <text>], whose text is not empty
    and holds no line terminator, is matched both by the leading-marker
    pattern and by the single-line-comment pattern, so the scanner pushes
    two items for it, and three when the block-comment pattern matches the
    line as well, which needs a [*] in the text; each item becomes one
    record of the registry. *)
Theorem annotation_line_pushed_twice content filePath i text (apis : Api.registry) :
  Js.split_lines content !! i = Some ("// @deprecated " +:+ text) →
  text ≠ EmptyString → single_line text = true →
  let line_ := "// @deprecated " +:+ text in
  let pushed := items_of_line (i + 1) (findDeprecatedItems content filePath) in
  is_Some (exec leading_marker line_) ∧
  is_Some (exec line_comment line_) ∧
  List.length pushed = (if test block_comment line_ then 3 else 2) ∧
  (no_star text = true → List.length pushed = 2) ∧
  Forall (λ item, file item = filePath ∧ line item = i + 1) pushed ∧
  getTotalCount (foldl (λ apis item, categorizeDeprecatedItem item apis) apis pushed)
  = getTotalCount apis + List.length pushed.
Proof.
  intros Hl Hne Hsl line_ pushed.
  pose proof (leading_marker_matches text Hne Hsl) as H1.
  pose proof (line_comment_matches text Hne Hsl) as H3.
  assert (List.length pushed = (if test block_comment line_ then 3 else 2)) as Hn.
  { unfold pushed. rewrite (items_of_line_scanLine _ _ _ _ Hl), scanLine_count.
    unfold test at 1 3. destruct H1 as [m1 ->], H3 as [m3 ->].
    by destruct (test block_comment _). }
  split_and!; try done.
  - intros Hstar. rewrite Hn. unfold test, exec.
    rewrite search_no_star; [done|].
    unfold line_, no_star in *. rewrite all_chars_app. by rewrite Hstar.
  - unfold pushed. rewrite (items_of_line_scanLine _ _ _ _ Hl).
    apply Forall_forall. intros item Hitem.
    by apply scanLine_item in Hitem as (? & ? & _).
  - apply categorize_all_total.
Qed.

Lemma annotation_line_pushed_twice_witness :
  let content := "export class Widget {" +:+ String "010"
                   ("// @deprecated use resize" +:+ String "010" "grow() {}") in
  let items := findDeprecatedItems content "widget.ts" in
  List.length (items_of_line 2 items) = 2 ∧
  getTotalCount (foldl (λ apis item, categorizeDeprecatedItem item apis)
                   (deprecatedApis new_extractor) (items_of_line 2 items)) = 2.
Proof.
  intros content items.
  destruct (annotation_line_pushed_twice content "widget.ts" 1 "use resize"
              (deprecatedApis new_extractor))
    as (_ & _ & _ & Heq & _ & Htotal); [by vm_compute|done|by vm_compute|].
  change (1 + 1) with 2 in *. fold items in Heq, Htotal.
  split; [apply Heq; by vm_compute|].
  rewrite Htotal, Heq; by vm_compute.
Defined.
End duplicates.

(** ** The name each pattern captures *)

Section captured_names.
Import Re Api Extractor Spec.

Lemma first_seq r1 r2 c m c' g1 g2 :
  first_match r1 c m g1 → first_match r2 m c' g2 →
  first_match (r1 >> r2) c c' (g1 ++ g2).
Proof.
  intros [tl1 H1] [tl2 H2]. unfold first_match.
  rewrite run_seq, H1, bind_cons. cbn [fst snd]. rewrite H2, bind_cons.
  cbn [fst snd]. simpl. eauto.
Qed.

Lemma first_alt_l r1 r2 c c' g :
  first_match r1 c c' g → first_match (r1 <|> r2) c c' g.
Proof. intros [tl H]. unfold first_match. rewrite run_alt, H. simpl. eauto. Qed.

Lemma first_alt_r r1 r2 c c' g :
  run r1 c = [] → first_match r2 c c' g → first_match (r1 <|> r2) c c' g.
Proof. intros H1 [tl H]. unfold first_match. rewrite run_alt, H1, H. simpl. eauto. Qed.

Lemma first_group i r c c' g :
  first_match r c c' g →
  first_match (Group i r) c c' (g ++ [(i, consumed c c')]).
Proof.
  intros [tl H]. unfold first_match. rewrite run_group, H, bind_cons.
  cbn [fst snd]. simpl. eauto.
Qed.

Lemma first_class p a s n :
  p a = true → first_match (Class p) (Cursor n (String a s)) (Cursor (S n) s) [].
Proof. intros Hp. exists []. by apply run_class_hit. Qed.

Lemma first_chr a s n :
  first_match (chr a) (Cursor n (String a s)) (Cursor (S n) s) [].
Proof. apply first_class. by apply bool_decide_eq_true. Qed.

Lemma first_lit pre s n :
  first_match (lit pre) (Cursor n (pre +:+ s)) (Cursor (n + String.length pre) s) [].
Proof.
  revert n. induction pre as [|a pre IH]; intros n.
  - exists []. simpl. by rewrite Nat.add_0_r.
  - change (String a pre +:+ s) with (String a (pre +:+ s)).
    change (lit (String a pre)) with (chr a >> lit pre)%re.
    replace (n + String.length (String a pre)) with (S n + String.length pre)
      by (simpl; lia).
    eapply (first_seq _ _ _ _ _ [] []); [apply first_chr|apply IH].
Qed.

Lemma first_star p pre s n :
  Js.all_chars p pre = true → ends p s →
  first_match (Star true (Class p)) (Cursor n (pre +:+ s))
    (Cursor (n + String.length pre) s) [].
Proof. intros Hpre Hs. by apply star_greedy_head. Qed.

Lemma first_plus p a pre s n :
  p a = true → Js.all_chars p pre = true → ends p s →
  first_match (plus (Class p)) (Cursor n (String a (pre +:+ s)))
    (Cursor (S n + String.length pre) s) [].
Proof.
  intros Ha Hpre Hs.
  eapply (first_seq _ _ _ _ _ [] []); [by apply first_class|by apply first_star].
Qed.

Lemma first_star_lazy r c : first_match (Star false r) c c [].
Proof.
  unfold first_match. cbn [run]. destruct (String.length (rest c)); simpl; eauto.
Qed.

Lemma substring_prefix pre s :
  String.substring 0 (String.length pre) (pre +:+ s) = pre.
Proof.
  induction pre as [|a pre IH]; [by destruct s|].
  change (String a pre +:+ s) with (String a (pre +:+ s)). simpl. by rewrite IH.
Qed.

Lemma consumed_prefix pre s n n' :
  n' = n + String.length pre →
  consumed (Cursor n (pre +:+ s)) (Cursor n' s) = pre.
Proof.
  intros ->. unfold consumed. cbn [pos rest].
  replace (n + String.length pre - n) with (String.length pre) by lia.
  apply substring_prefix.
Qed.

(** [find] over the groups numbered from [a]: the first one that took part
    with a text that is not empty. *)
Lemma find_group_from g a n index_ :
  0 < index_ →
  match find_group index_ (group_of g <$> seq a n) with
  | Some w =>
      ∃ i, a ≤ i < a + n ∧ group_of g i = Some w ∧ w ≠ EmptyString ∧
           ∀ j, a ≤ j < i → group_of g j = None ∨ group_of g j = Some EmptyString
  | None =>
      ∀ j, a ≤ j < a + n → group_of g j = None ∨ group_of g j = Some EmptyString
  end.
Proof.
  revert a index_. induction n as [|n IH]; intros a index_ Hi.
  - simpl. intros j. lia.
  - cbn [seq fmap list_fmap find_group].
    assert ((0 <? index_) = true) as -> by (by apply Nat.ltb_lt).
    destruct (group_of g a) as [[|b w]|] eqn:Ha; cbn [andb truthy_group Js.truthy].
    + specialize (IH (S a) (S index_) ltac:(lia)).
      destruct (find_group _ _) as [w|].
      * destruct IH as (i & Hr & Hg & Hw & Hbefore).
        exists i. split_and!; [lia..|done|done|].
        intros j Hj. destruct (decide (j = a)) as [->|]; [by right|].
        apply Hbefore. lia.
      * intros j Hj. destruct (decide (j = a)) as [->|]; [by right|].
        apply IH. lia.
    + exists a. split_and!; [lia..|done|done|]. intros j. lia.
    + specialize (IH (S a) (S index_) ltac:(lia)).
      destruct (find_group _ _) as [w|].
      * destruct IH as (i & Hr & Hg & Hw & Hbefore).
        exists i. split_and!; [lia..|done|done|].
        intros j Hj. destruct (decide (j = a)) as [->|]; [by left|].
        apply Hbefore. lia.
      * intros j Hj. destruct (decide (j = a)) as [->|]; [by left|].
        apply IH. lia.
Qed.

(** The name is the first non-empty group of the match of the pattern
    selected for the kind. *)
Lemma name_is_first_nonempty_group context_ k :
  let pattern := default first_word_pattern (patterns k) in
  match exec pattern context_ with
  | Some m =>
      first_nonempty_group (ngroups pattern) (groups m)
        (extractIdentifierName context_ k)
      ∨ (no_nonempty_group (ngroups pattern) (groups m) ∧
         extractIdentifierName context_ k = "unknown")
  | None => extractIdentifierName context_ k = "unknown"
  end.
Proof.
  intros pattern. unfold extractIdentifierName. fold pattern.
  destruct (exec pattern context_) as [m|]; [|done].
  unfold match_array. cbn [find_group Nat.ltb Nat.leb andb].
  pose proof (find_group_from (groups m) 1 (ngroups pattern) 1 ltac:(lia)) as H.
  destruct (find_group 1 _) as [w|]; cbn [default].
  - left. destruct H as (i & Hr & Hg & Hw & Hbefore).
    exists i. split_and!; [lia..|done|done|]. intros j Hj. apply Hbefore. lia.
  - right. split; [|done]. intros j Hj. apply H. lia.
Qed.

(** A match with a single group that is not empty gives that group. *)
Lemma extract_group k pattern context_ n tail c' i w :
  patterns k = Some pattern → 1 ≤ i ≤ ngroups pattern →
  search pattern 0 context_ = search pattern n tail →
  first_match pattern (Cursor n tail) c' [(i, w)] →
  w ≠ EmptyString →
  extractIdentifierName context_ k = w.
Proof.
  intros Hp Hi Hsearch [tl Hrun] Hw.
  pose proof (name_is_first_nonempty_group context_ k) as H.
  cbv zeta in H. rewrite Hp in H. cbn [default] in H. unfold id, exec in H.
  rewrite Hsearch, (search_head _ _ _ _ _ Hrun) in H. cbn [groups snd] in H.
  destruct H as [(j & Hj & Hg & _)|[Hnone _]].
  - simpl in Hg. destruct (i =? j); by simplify_eq.
  - destruct (Hnone i Hi) as [Hg|Hg]; simpl in Hg; rewrite Nat.eqb_refl in Hg;
      by simplify_eq.
Qed.

(** The positions of a leading [export ] are passed when the pattern does
    not match there. *)
Ltac skip_export :=
  rewrite export_prefix_chars;
  repeat (rewrite search_cons_fail
            by (rewrite run_classes_eq by reflexivity; vm_compute; reflexivity)).

(** A declaration keyword, white space and a name. *)
Lemma name_after_keyword pre kw ws b w s :
  exported pre → ws ≠ EmptyString → blank ws →
  Js.all_chars Js.is_word (String b w) = true → ends Js.is_word s →
  let context_ := pre +:+ kw +:+ ws +:+ String b w +:+ s in
  (kw ∈ ["class"; "interface"; "type"] →
   extractIdentifierName context_ class = String b w) ∧
  (kw ∈ ["const"; "let"; "var"] →
   extractIdentifierName context_ constant = String b w) ∧
  (kw = "type" → extractIdentifierName context_ type = String b w) ∧
  (kw = "function" → extractIdentifierName context_ function = String b w).
Proof.
  intros Hpre Hne Hws Hw Hs context_. subst context_.
  set (tail := ws +:+ String b w +:+ s).
  assert (∀ kws n m,
    run kws (Cursor n (kw +:+ tail)) = [(Cursor m tail, [])] →
    ∃ c', first_match (kws >> plus Re.ws >> Group 1 (plus word))%re
            (Cursor n (kw +:+ tail)) c' [(1, String b w)]) as Hname.
  { intros kws n m Hkws. by apply (run_keyword_name kws kw ws b w s n m). }
  split_and!.
  - intros Hkw. set_unfold in Hkw.
    destruct Hpre as [->| ->], Hkw as [->|[->|[->|[]]]];
      match goal with
      | |- extractIdentifierName (EmptyString +:+ ?X) _ = _ =>
          edestruct (Hname (lit "class" <|> lit "interface" <|> lit "type")%re 0)
            as (c' & Hrun); [reflexivity|];
          eapply (extract_group class _ _ 0 X c' 1);
            [reflexivity | simpl; lia | reflexivity | exact Hrun | done]
      | |- extractIdentifierName ("export " +:+ ?X) _ = _ =>
          edestruct (Hname (lit "class" <|> lit "interface" <|> lit "type")%re 7)
            as (c' & Hrun); [reflexivity|];
          eapply (extract_group class _ _ 7 X c' 1);
            [reflexivity | simpl; lia | skip_export; reflexivity | exact Hrun
            | done]
      end.
  - intros Hkw. set_unfold in Hkw.
    destruct Hpre as [->| ->], Hkw as [->|[->|[->|[]]]];
      match goal with
      | |- extractIdentifierName (EmptyString +:+ ?X) _ = _ =>
          edestruct (Hname (lit "const" <|> lit "let" <|> lit "var")%re 0)
            as (c' & Hrun); [reflexivity|];
          eapply (extract_group constant _ _ 0 X c' 1);
            [reflexivity | simpl; lia | reflexivity | exact Hrun | done]
      | |- extractIdentifierName ("export " +:+ ?X) _ = _ =>
          edestruct (Hname (lit "const" <|> lit "let" <|> lit "var")%re 7)
            as (c' & Hrun); [reflexivity|];
          eapply (extract_group constant _ _ 7 X c' 1);
            [reflexivity | simpl; lia | skip_export; reflexivity | exact Hrun
            | done]
      end.
  - intros ->.
    destruct Hpre as [->| ->];
      match goal with
      | |- extractIdentifierName (EmptyString +:+ ?X) _ = _ =>
          edestruct (Hname (lit "type") 0) as (c' & Hrun); [reflexivity|];
          eapply (extract_group type _ _ 0 X c' 1);
            [reflexivity | simpl; lia | reflexivity | exact Hrun | done]
      | |- extractIdentifierName ("export " +:+ ?X) _ = _ =>
          edestruct (Hname (lit "type") 7) as (c' & Hrun); [reflexivity|];
          eapply (extract_group type _ _ 7 X c' 1);
            [reflexivity | simpl; lia | skip_export; reflexivity | exact Hrun
            | done]
      end.
  - intros ->.
    destruct Hpre as [->| ->];
      match goal with
      | |- extractIdentifierName (EmptyString +:+ ?X) _ = _ =>
          edestruct (Hname (lit "function") 0) as (c' & Hrun); [reflexivity|];
          eapply (extract_group function _ _ 0 X c' 1);
            [reflexivity | simpl; lia | reflexivity
            | by apply first_alt_l | done]
      | |- extractIdentifierName ("export " +:+ ?X) _ = _ =>
          edestruct (Hname (lit "function") 7) as (c' & Hrun); [reflexivity|];
          eapply (extract_group function _ _ 7 X c' 1);
            [reflexivity | simpl; lia | skip_export; reflexivity
            | by apply first_alt_l | done]
      end.
Qed.

Lemma first_match_groups r c c' g g' :
  first_match r c c' g → g = g' → first_match r c c' g'.
Proof. by intros H <-. Qed.

(** A capture group around a run of characters of a class holds the run. *)
Lemma first_group_plus i p a pre s n :
  p a = true → Js.all_chars p pre = true → ends p s →
  first_match (Group i (plus (Class p))) (Cursor n (String a (pre +:+ s)))
    (Cursor (S n + String.length pre) s) [(i, String a pre)].
Proof.
  intros Ha Hpre Hs.
  eapply first_match_groups; [by apply first_group, first_plus|].
  simpl. do 2 f_equal. apply (consumed_prefix (String a pre) s). simpl. lia.
Qed.

Lemma is_space_not_word a : Js.is_space a = true → Js.is_word a = false.
Proof. by destruct a as [[] [] [] [] [] [] [] []]. Qed.

Lemma ends_word_blank ws c s :
  blank ws → Js.is_word c = false → ends Js.is_word (ws +:+ String c s).
Proof.
  intros Hws Hc. destruct ws as [|a ws]; [done|].
  unfold blank in Hws. simpl in Hws. apply andb_true_iff in Hws as [Ha _].
  by apply is_space_not_word.
Qed.

(** [const], white space, a name, optional white space and [=]: the second
    alternative of the pattern for functions. *)
Lemma name_of_const pre ws b w ws' s :
  exported pre → ws ≠ EmptyString → blank ws →
  Js.all_chars Js.is_word (String b w) = true → blank ws' →
  extractIdentifierName
    (pre +:+ "const" +:+ ws +:+ String b w +:+ ws' +:+ String "=" s) function
  = String b w.
Proof.
  intros Hpre Hne Hws Hw Hws'. destruct ws as [|a ws]; [done|].
  unfold blank in Hws. simpl in Hws. apply andb_true_iff in Hws as [Ha Hws].
  simpl in Hw. apply andb_true_iff in Hw as [Hb Hw].
  pose proof (ends_word_blank ws' "=" s Hws' eq_refl) as Hend.
  set (tail := ws' +:+ String "=" s) in *.
  change (String a ws +:+ String b w +:+ tail)
    with (String a (ws +:+ String b (w +:+ tail))).
  assert (∀ n, ∃ c',
    first_match (lit "const" >> plus Re.ws >> Group 2 (plus word)
                 >> Star true Re.ws >> chr "=")%re
      (Cursor n ("const" +:+ String a (ws +:+ String b (w +:+ tail)))) c'
      [(2, String b w)]) as Hrun.
  { intros n. eexists. eapply first_match_groups.
    - eapply first_seq; [apply first_lit|].
      eapply first_seq; [apply first_plus; [done|done|by apply is_word_not_space]|].
      eapply first_seq; [by apply first_group_plus|].
      eapply first_seq; [by apply first_star|apply first_chr].
    - reflexivity. }
  destruct Hpre as [->| ->].
  - destruct (Hrun 0) as [c' Hc].
    eapply (extract_group function _ _ 0 _ c' 2);
      [reflexivity | simpl; lia | reflexivity | | done].
    apply first_alt_r; [reflexivity|]. by apply first_alt_l.
  - destruct (Hrun 7) as [c' Hc].
    eapply (extract_group function _ _ 7 _ c' 2);
      [reflexivity | simpl; lia | skip_export; reflexivity | | done].
    apply first_alt_r; [reflexivity|]. by apply first_alt_l.
Qed.

Lemma ends_space_word ws c s :
  blank ws → Js.is_space c = false → Js.is_word c = false →
  ends Js.is_word (ws +:+ String c s).
Proof. intros Hws _ Hc. by apply ends_word_blank. Qed.

(** A literal does not match a text that starts with another character. *)
Lemma run_lit_miss a p X b s n :
  b ≠ a → run (lit (String a p) >> X)%re (Cursor n (String b s)) = [].
Proof.
  intros Hb. rewrite run_seq.
  assert (run (lit (String a p)) (Cursor n (String b s)) = []) as ->; [|done].
  simpl. by rewrite bool_decide_eq_false_2.
Qed.

(** A name, optional white space, a parameter list and a brace: the third
    alternative of the pattern for functions. *)
Lemma name_of_method b w ws args ws' s :
  Js.all_chars Js.is_word (String b w) = true →
  b ≠ "f"%char → b ≠ "c"%char →
  blank ws → without [")"%char] args = true → blank ws' →
  extractIdentifierName
    (String b w +:+ ws +:+ String "(" (args +:+ String ")" (ws' +:+ String "{" s)))
    function
  = String b w.
Proof.
  intros Hw Hf Hc Hws Hargs Hws'.
  simpl in Hw. apply andb_true_iff in Hw as [Hb Hw].
  pose proof (ends_word_blank ws "(" (args +:+ String ")" (ws' +:+ String "{" s))
                Hws eq_refl) as Hend.
  set (tail := ws +:+ String "(" (args +:+ String ")" (ws' +:+ String "{" s))) in *.
  change (String b w +:+ tail) with (String b (w +:+ tail)).
  eapply (extract_group function _ _ 0 _ _ 3);
    [reflexivity | simpl; lia | reflexivity | | done].
  apply first_alt_r; [by apply run_lit_miss|].
  apply first_alt_r; [by apply run_lit_miss|].
  eapply first_match_groups.
  - eapply first_seq; [by apply first_group_plus|].
    eapply first_seq; [by apply first_star|].
    eapply first_seq; [apply first_chr|].
    eapply first_seq; [apply first_star; [exact Hargs|done]|].
    eapply first_seq; [apply first_chr|].
    eapply first_seq; [by apply first_star|apply first_chr].
  - reflexivity.
Qed.

(** A name, optional white space and a colon. *)
Lemma name_of_property b w ws s :
  Js.all_chars Js.is_word (String b w) = true → blank ws →
  extractIdentifierName (String b w +:+ ws +:+ String ":" s) property = String b w.
Proof.
  intros Hw Hws. simpl in Hw. apply andb_true_iff in Hw as [Hb Hw].
  pose proof (ends_word_blank ws ":" s Hws eq_refl) as Hend.
  set (tail := ws +:+ String ":" s) in *.
  change (String b w +:+ tail) with (String b (w +:+ tail)).
  eapply (extract_group property _ _ 0 _ _ 1);
    [reflexivity | simpl; lia | reflexivity | | done].
  eapply first_match_groups.
  - eapply first_seq; [by apply first_group_plus|].
    eapply first_seq; [by apply first_star|apply first_chr].
  - reflexivity.
Qed.

Lemma run_star_lazy_cons p a s n :
  p a = true →
  run (Star false (Class p)) (Cursor n (String a s))
  = (Cursor n (String a s), []) :: run (Star false (Class p)) (Cursor (S n) s).
Proof.
  intros Ha. simpl. rewrite Ha.
  rewrite (filter_singleton_True _ _ [])
    by (unfold progress; simpl; apply Nat.ltb_lt; lia).
  rewrite bind_singleton. cbn [fst snd]. by rewrite bind_pair_id.
Qed.

(** A lazy [.*?] before a literal passes the characters that cannot start
    the literal. *)
Lemma lazy_skip a p X x t n :
  single_line x = true → without [a] x = true →
  run (Star false dot >> lit (String a p) >> X)%re (Cursor n (x +:+ t))
  = run (Star false dot >> lit (String a p) >> X)%re
      (Cursor (n + String.length x) t).
Proof.
  revert n. induction x as [|b x IH]; intros n Hl Hx.
  - change (EmptyString +:+ t) with t. simpl String.length. by rewrite Nat.add_0_r.
  - change (String b x +:+ t) with (String b (x +:+ t)).
    unfold single_line in Hl. simpl in Hl. apply andb_true_iff in Hl as [Hb Hl].
    unfold without in Hx. simpl in Hx. apply andb_true_iff in Hx as [Hba Hx].
    apply bool_decide_eq_true in Hba.
    rewrite run_seq. unfold dot at 1. rewrite run_star_lazy_cons by done.
    rewrite bind_cons. cbn [fst snd].
    rewrite run_lit_miss by set_solver. cbn [mbind list_bind app].
    change (Class (λ a0, negb (Js.is_line_terminator a0))) with dot.
    rewrite <-run_seq, (IH (S n)) by done.
    simpl String.length. by rewrite Nat.add_succ_r.
Qed.

Lemma first_quote q s n :
  q ∈ quotes → first_match quote (Cursor n (String q s)) (Cursor (S n) s) [].
Proof.
  intros Hq. unfold quotes in Hq. set_unfold in Hq. destruct Hq as [->|[->|[]]].
  - apply first_alt_l, first_chr.
  - apply first_alt_r; [reflexivity|apply first_chr].
Qed.

(** An import statement: the module path between the quotes. *)
Lemma module_of_import ws x ws' q module q' s :
  ws ≠ EmptyString → blank ws →
  ends Js.is_space x → single_line x = true → without ["f"%char] x = true →
  ws' ≠ EmptyString → blank ws' → q ∈ quotes → q' ∈ quotes →
  module ≠ EmptyString → without quotes module = true →
  extractIdentifierName
    ("import" +:+ ws +:+ x +:+ "from" +:+ ws' +:+ String q (module +:+ String q' s))
    import
  = module.
Proof.
  intros Hne Hws Hx Hl Hf Hne' Hws' Hq Hq' Hm Hmod.
  destruct ws as [|a ws]; [done|]. destruct ws' as [|a' ws']; [done|].
  destruct module as [|m0 module]; [done|].
  unfold blank in Hws, Hws'. simpl in Hws, Hws'.
  apply andb_true_iff in Hws as [Ha Hws]. apply andb_true_iff in Hws' as [Ha' Hws'].
  unfold without in Hmod. simpl in Hmod. apply andb_true_iff in Hmod as [Hm0 Hmod].
  set (after := String q (String m0 module +:+ String q' s)).
  set (from := "from" +:+ String a' ws' +:+ after).
  assert (ends Js.is_space (x +:+ from)) as Hend by (by destruct x).
  change (String a ws +:+ x +:+ from) with (String a (ws +:+ x +:+ from)).
  eapply (extract_group import _ _ 0 _ _ 1);
    [reflexivity | simpl; lia | reflexivity | | done].
  eapply first_match_groups.
  - eapply first_seq; [apply first_lit|].
    eapply first_seq; [by apply first_plus|].
    unfold first_match. rewrite lazy_skip by done.
    eapply first_seq; [apply first_star_lazy|].
    eapply first_seq; [apply first_lit|].
    eapply first_seq; [apply first_plus; [done|done|]|].
    { unfold after, quotes in *. set_unfold in Hq. by destruct Hq as [->|[->|[]]]. }
    eapply first_seq; [by apply first_quote|].
    eapply first_seq; [|by apply first_quote].
    apply first_group_plus; [done|done|].
    simpl. apply bool_decide_eq_false_2. intros Hn. by apply Hn.
  - reflexivity.
Qed.

(** C5, amended: the name is the first non-empty capture group of the
    match of the pattern selected for the kind, and [unknown] when that
    pattern does not match or captures nothing; each of the six classified
    kinds selects a pattern of its own and only the kind [unknown] the
    first-word pattern, which gives the first word of the context.  The
    patterns capture: the name after a declaration keyword (for the kinds
    class, constant, type and function), the name before [=] after [const]
    and the name before a parameter list and a brace (function), the name
    before a colon (property), and the module path between quotes after
    [from] (import).  The name is never empty. *)
Theorem name_extraction_by_kind :
  (∀ context_ k,
     let pattern := default first_word_pattern (patterns k) in
     match exec pattern context_ with
     | Some m =>
         first_nonempty_group (ngroups pattern) (groups m)
           (extractIdentifierName context_ k)
         ∨ (no_nonempty_group (ngroups pattern) (groups m) ∧
            extractIdentifierName context_ k = "unknown")
     | None => extractIdentifierName context_ k = "unknown"
     end) ∧
  (∀ k, patterns k = None ↔ k = unknown) ∧
  (∀ context_,
     extractIdentifierName context_ unknown
     = if Js.truthy (first_word context_) then first_word context_ else "unknown") ∧
  (∀ pre kw ws b w s,
     exported pre → ws ≠ EmptyString → blank ws →
     Js.all_chars Js.is_word (String b w) = true → ends Js.is_word s →
     let context_ := pre +:+ kw +:+ ws +:+ String b w +:+ s in
     (kw ∈ ["class"; "interface"; "type"] →
      extractIdentifierName context_ class = String b w) ∧
     (kw ∈ ["const"; "let"; "var"] →
      extractIdentifierName context_ constant = String b w) ∧
     (kw = "type" → extractIdentifierName context_ type = String b w) ∧
     (kw = "function" → extractIdentifierName context_ function = String b w)) ∧
  (∀ pre ws b w ws' s,
     exported pre → ws ≠ EmptyString → blank ws →
     Js.all_chars Js.is_word (String b w) = true → blank ws' →
     extractIdentifierName
       (pre +:+ "const" +:+ ws +:+ String b w +:+ ws' +:+ String "=" s) function
     = String b w) ∧
  (∀ b w ws args ws' s,
     Js.all_chars Js.is_word (String b w) = true →
     b ≠ "f"%char → b ≠ "c"%char →
     blank ws → without [")"%char] args = true → blank ws' →
     extractIdentifierName
       (String b w +:+ ws
        +:+ String "(" (args +:+ String ")" (ws' +:+ String "{" s)))
       function
     = String b w) ∧
  (∀ b w ws s,
     Js.all_chars Js.is_word (String b w) = true → blank ws →
     extractIdentifierName (String b w +:+ ws +:+ String ":" s) property
     = String b w) ∧
  (∀ ws x ws' q module q' s,
     ws ≠ EmptyString → blank ws →
     ends Js.is_space x → single_line x = true → without ["f"%char] x = true →
     ws' ≠ EmptyString → blank ws' → q ∈ quotes → q' ∈ quotes →
     module ≠ EmptyString → without quotes module = true →
     extractIdentifierName
       ("import" +:+ ws +:+ x +:+ "from" +:+ ws'
        +:+ String q (module +:+ String q' s))
       import
     = module) ∧
  (∀ context_ k, extractIdentifierName context_ k ≠ EmptyString).
Proof.
  split_and!.
  - apply name_is_first_nonempty_group.
  - intros k. by destruct k.
  - apply extractIdentifierName_unknown.
  - apply name_after_keyword.
  - apply name_of_const.
  - apply name_of_method.
  - apply name_of_property.
  - apply module_of_import.
  - intros context_ k. unfold extractIdentifierName.
    destruct (exec _ context_) as [m|]; [|done].
    destruct (find_group 0 _) as [s|] eqn:Hf; [|done].
    apply find_group_truthy in Hf. simpl. by destruct s.
Qed.

Lemma name_extraction_by_kind_witness :
  extractIdentifierName "export interface LegacyNode {" class = "LegacyNode" ∧
  extractIdentifierName "let  count = 0" constant = "count" ∧
  extractIdentifierName "type Id = string" type = "Id" ∧
  extractIdentifierName "export function oldResize(w, h) {" function = "oldResize" ∧
  extractIdentifierName "export const resize = (w) => w" function = "resize" ∧
  extractIdentifierName "serialize (node, graph) {" function = "serialize" ∧
  extractIdentifierName "size : number;" property = "size" ∧
  extractIdentifierName "import { app } from '../scripts/app'" import
  = "../scripts/app" ∧
  extractIdentifierName "export default function () {" unknown = "export" ∧
  extractIdentifierName "class $Widget {}" class = "unknown".
Proof.
  destruct name_extraction_by_kind
    as (Hfirst & _ & Hword & Hkw & Hconst & Hmethod & Hprop & Himport & _).
  destruct (Hkw "export " "interface" " " "L"%char "egacyNode" " {")
    as (Hclass & _ & _ & _); [by right|done|reflexivity..|].
  destruct (Hkw EmptyString "let" "  " "c"%char "ount" " = 0")
    as (_ & Hlet & _ & _); [by left|done|reflexivity..|].
  destruct (Hkw EmptyString "type" " " "I"%char "d" " = string")
    as (_ & _ & Htype & _); [by left|done|reflexivity..|].
  destruct (Hkw "export " "function" " " "o"%char "ldResize" "(w, h) {")
    as (_ & _ & _ & Hfun); [by right|done|reflexivity..|].
  split_and!.
  - apply Hclass. right. left.
  - apply Hlet. right. left.
  - apply Htype. reflexivity.
  - apply Hfun. reflexivity.
  - apply (Hconst "export " " " "r"%char "esize" " " " (w) => w");
      [by right|discriminate|reflexivity..].
  - apply (Hmethod "s"%char "erialize" " " "node, graph" " " EmptyString);
      [reflexivity|discriminate|discriminate|reflexivity..].
  - apply (Hprop "s"%char "ize" " " " number;"); reflexivity.
  - apply (Himport " " "{ app } " " " "'"%char "../scripts/app" "'"%char EmptyString);
      [discriminate|reflexivity|reflexivity|reflexivity|reflexivity|discriminate
      |reflexivity|left|left|discriminate|reflexivity].
  - rewrite Hword. reflexivity.
  - specialize (Hfirst "class $Widget {}" class). cbv zeta in Hfirst.
    assert (exec (default first_word_pattern (patterns class)) "class $Widget {}"
            = None) as Hnone by reflexivity.
    rewrite Hnone in Hfirst. exact Hfirst.
Defined.
End captured_names.
